(** * Layered edit engine of the background remover

    A shallow embedding of [src/components/ImageWorkspace.tsx] (the two canvas
    layers, the render loop, the bounded undo history and the React effects
    that drive them), of [handleAiRemove] in [src/App.tsx] and of
    [removeBackgroundWithAi] in [src/services/geminiService.ts].

    Conventions of the model:
    - Canvas 2D primitives ([clearRect], [drawImage], [getImageData],
      [putImageData], the compositing operators) are browser built-ins; they
      are modelled on straight (non-premultiplied) 8-bit RGBA, the format
      [getImageData] exposes, with products rounded to the nearest integer.
      A canvas carries the two pieces of context state the code assigns,
      [globalCompositeOperation] and [globalAlpha].  What a browser adds to
      this is not modelled: it may store colour premultiplied by alpha, so
      that the colour of a partly transparent pixel is read back changed,
      and it may round the last bit another way.  The theorems are
      therefore stated on alpha, on opaque pixels and on pixels an
      operation does not touch, with bounds where rounding enters.
    - A React ref is an [option]; [getContext('2d')] always yields a
      context; an effect is a function on the refs, and [img.onload] runs
      as part of the effect that installs it.
    - Left out: the zoom scale, the cursor overlay and the
      [onProcessedImageUpdate] callback, which write no ref. *)

From Stdlib Require Import String Ascii ZArith List Lia Bool Arith.
Import ListNotations.

(** ** Pixels and the two compositing operators the code uses *)

Record Pixel : Type := mkPixel { red : Z; green : Z; blue : Z; alpha : Z }.

Definition transparent : Pixel := mkPixel 0 0 0 0.

(** [fillStyle = '#ff0000'] with the coverage the rasteriser gives a pixel. *)
Definition markerRed (coverage : Z) : Pixel := mkPixel 255 0 0 coverage.

(** Product of two values on the 0..255 scale. *)
Definition mul8 (a b : Z) : Z := ((a * b + 127) / 255)%Z.

(** [globalAlpha = 1.0] and [globalAlpha = 0.6] on the 0..255 scale. *)
Definition alphaOne : Z := 255%Z.
Definition alphaSixty : Z := 153%Z.

Inductive CompositeOp : Type := SourceOver | DestinationOut.

Definition mixChannel (cs sa cd da oa : Z) : Z :=
  ((cs * sa + cd * da + oa / 2) / oa)%Z.

(** 'source-over': the source painted on top of the destination. *)
Definition sourceOver (ga : Z) (s d : Pixel) : Pixel :=
  let sa := mul8 (alpha s) ga in
  if (sa =? 0)%Z then d
  else
    let da := mul8 (alpha d) (255 - sa) in
    let oa := (sa + da)%Z in
    mkPixel (mixChannel (red s) sa (red d) da oa)
            (mixChannel (green s) sa (green d) da oa)
            (mixChannel (blue s) sa (blue d) da oa)
            oa.

(** 'destination-out': the destination kept where the source does not
    cover it; its alpha is scaled by the source's transparency. *)
Definition destinationOut (ga : Z) (s d : Pixel) : Pixel :=
  let sa := mul8 (alpha s) ga in
  mkPixel (red d) (green d) (blue d) (mul8 (alpha d) (255 - sa)).

Definition blend (op : CompositeOp) (ga : Z) (s d : Pixel) : Pixel :=
  match op with
  | SourceOver => sourceOver ga s d
  | DestinationOut => destinationOut ga s d
  end.

(** ** Rasters: decoded images, [ImageData] and canvas bitmaps *)

Record Raster : Type := mkRaster { width : nat; height : nat; data : list Pixel }.

Definition getPixel (r : Raster) (x y : nat) : Pixel :=
  if (x <? width r) && (y <? height r)
  then nth (y * width r + x) (data r) transparent
  else transparent.

(** A [w] by [h] raster in row-major order whose pixel at (x,y) is [f x y]. *)
Definition tabulate (w h : nat) (f : nat -> nat -> Pixel) : Raster :=
  mkRaster w h (map (fun i => f (i mod w) (i / w)) (seq 0 (w * h))).

Definition blank (w h : nat) : Raster := tabulate w h (fun _ _ => transparent).

Definition wfRaster (r : Raster) : Prop := length (data r) = width r * height r.

(** No pixel of the raster carries any alpha. *)
Definition isEmpty (r : Raster) : Prop :=
  forall x y, alpha (getPixel r x y) = 0%Z.

Definition Pixel_eq_dec (p q : Pixel) : {p = q} + {p <> q}.
Proof. decide equality; apply Z.eq_dec. Defined.

Definition Raster_eq_dec (r s : Raster) : {r = s} + {r <> s}.
Proof.
  decide equality;
    [ apply (list_eq_dec Pixel_eq_dec) | apply Nat.eq_dec | apply Nat.eq_dec ].
Defined.

(** ** Canvas elements with the state of their 2D context *)

Record Canvas : Type := mkCanvas {
  bitmap : Raster;
  globalCompositeOperation : CompositeOp;
  globalAlpha : Z
}.

(** A canvas whose width and height have just been assigned: transparent
    black, context state at its defaults. *)
Definition createCanvas (w h : nat) : Canvas :=
  mkCanvas (blank w h) SourceOver alphaOne.

Definition setCompositeOperation (op : CompositeOp) (c : Canvas) : Canvas :=
  mkCanvas (bitmap c) op (globalAlpha c).

Definition setGlobalAlpha (ga : Z) (c : Canvas) : Canvas :=
  mkCanvas (bitmap c) (globalCompositeOperation c) ga.

Definition mapBitmap (f : nat -> nat -> Pixel -> Pixel) (c : Canvas) : Canvas :=
  mkCanvas
    (tabulate (width (bitmap c)) (height (bitmap c))
       (fun x y => f x y (getPixel (bitmap c) x y)))
    (globalCompositeOperation c) (globalAlpha c).

(** [ctx.clearRect(0, 0, w, h)]. *)
Definition clearRect (w h : nat) (c : Canvas) : Canvas :=
  mapBitmap (fun x y p => if (x <? w) && (y <? h) then transparent else p) c.

(** Painting a source, given by its colour at each canvas pixel, under the
    context's current operator and global alpha. *)
Definition paint (src : nat -> nat -> Pixel) (c : Canvas) : Canvas :=
  mapBitmap
    (fun x y p => blend (globalCompositeOperation c) (globalAlpha c) (src x y) p) c.

(** [ctx.drawImage(src, 0, 0)]: outside the source nothing is painted. *)
Definition drawImage (src : Raster) (c : Canvas) : Canvas :=
  paint (getPixel src) c.

(** [ctx.getImageData(0, 0, w, h)]. *)
Definition getImageData (w h : nat) (c : Canvas) : Raster :=
  tabulate w h (getPixel (bitmap c)).

(** [ctx.putImageData(img, 0, 0)]: overwrites, no compositing. *)
Definition putImageData (img : Raster) (c : Canvas) : Canvas :=
  mapBitmap
    (fun x y p => if (x <? width img) && (y <? height img)
                  then getPixel img x y else p) c.

(** ** The refs of the ImageWorkspace component *)

Record Workspace : Type := mkWorkspace {
  displayCanvasRef : option Canvas;
  baseLayerRef : option Canvas;
  maskLayerRef : option Canvas;
  historyRef : list Raster
}.

Definition setDisplay (c : Canvas) (ws : Workspace) : Workspace :=
  mkWorkspace (Some c) (baseLayerRef ws) (maskLayerRef ws) (historyRef ws).

(** [maskCtx?.clearRect(0, 0, w, h)] on [maskLayerRef.current?]. *)
Definition clearMask (w h : nat) (m : option Canvas) : option Canvas :=
  option_map (clearRect w h) m.

(** The drawing sequence of the render loop on the display context. *)
Definition composite (manualMaskPreview : bool) (base mask display : Canvas) : Canvas :=
  let w := width (bitmap display) in
  let h := height (bitmap display) in
  let ctx := clearRect w h display in
  let ctx := drawImage (bitmap base) (setCompositeOperation SourceOver ctx) in
  let ctx :=
    if manualMaskPreview then
      drawImage (bitmap mask) (setCompositeOperation DestinationOut ctx)
    else
      setGlobalAlpha alphaOne
        (drawImage (bitmap mask)
           (setGlobalAlpha alphaSixty (setCompositeOperation SourceOver ctx))) in
  setCompositeOperation SourceOver ctx.

(** The render loop. *)
Definition renderCanvas (manualMaskPreview : bool) (ws : Workspace) : Workspace :=
  match displayCanvasRef ws, baseLayerRef ws, maskLayerRef ws with
  | Some display, Some base, Some mask =>
      setDisplay (composite manualMaskPreview base mask display) ws
  | _, _, _ => ws
  end.

(** History operations of a JS array used oldest first. *)
Definition historyLimit : nat := 20.

Definition pushSnapshot (snap : Raster) (history : list Raster) : list Raster :=
  let pushed := history ++ [snap] in
  if historyLimit <? length pushed then tl pushed else pushed.

(** The undo effect. *)
Definition undoEffect (triggerUndo : Z) (manualMaskPreview : bool)
    (ws : Workspace) : Workspace :=
  if (triggerUndo =? 0)%Z then ws
  else
    match baseLayerRef ws with
    | None => ws
    | Some base =>
        if 0 <? length (historyRef ws) then
          if 1 <? length (historyRef ws) then
            let popped := removelast (historyRef ws) in
            let prevState := last popped (blank 0 0) in
            renderCanvas manualMaskPreview
              (mkWorkspace (displayCanvasRef ws)
                 (Some (putImageData prevState base))
                 (maskLayerRef ws) popped)
          else ws
        else ws
    end.

(** The manual-apply effect. *)
Definition manualApplyEffect (triggerManualApply : Z) (manualMaskPreview : bool)
    (ws : Workspace) : Workspace :=
  if (triggerManualApply =? 0)%Z then ws
  else
    match baseLayerRef ws, maskLayerRef ws with
    | Some base, Some mask =>
        let baseCtx :=
          setCompositeOperation SourceOver
            (drawImage (bitmap mask) (setCompositeOperation DestinationOut base)) in
        let maskCtx := clearRect (width (bitmap mask)) (height (bitmap mask)) mask in
        let snap :=
          getImageData (width (bitmap baseCtx)) (height (bitmap baseCtx)) baseCtx in
        renderCanvas manualMaskPreview
          (mkWorkspace (displayCanvasRef ws) (Some baseCtx) (Some maskCtx)
             (pushSnapshot snap (historyRef ws)))
    | _, _ => ws
    end.

(** [drawOnMask]: one brush stamp.  [coverage x y] is the alpha the
    rasteriser gives pixel (x,y) for the disc [arc(x, y, brushSize, 0, 2π)]. *)
Definition drawOnMask (coverage : nat -> nat -> Z) (manualMaskPreview : bool)
    (ws : Workspace) : Workspace :=
  match maskLayerRef ws with
  | Some mask =>
      renderCanvas manualMaskPreview
        (mkWorkspace (displayCanvasRef ws) (baseLayerRef ws)
           (Some (paint (fun x y => markerRed (coverage x y)) mask))
           (historyRef ws))
  | None => ws
  end.

(** The initialisation effect. *)
Definition initEffect (img : Raster) (preview : bool) (ws : Workspace) : Workspace :=
  match displayCanvasRef ws with
  | None => ws
  | Some _ =>
      let w := width img in
      let h := height img in
      let baseCanvas := drawImage img (createCanvas w h) in
      let maskCanvas := createCanvas w h in
      renderCanvas preview
        (mkWorkspace (Some (createCanvas w h)) (Some baseCanvas) (Some maskCanvas)
           [getImageData w h baseCanvas])
  end.

(** The pixels of the live base layer. *)
Definition currentBase (ws : Workspace) : Raster :=
  match baseLayerRef ws with
  | Some base => bitmap base
  | None => blank 0 0
  end.

Definition currentMask (ws : Workspace) : Raster :=
  match maskLayerRef ws with
  | Some mask => bitmap mask
  | None => blank 0 0
  end.

Definition currentDisplay (ws : Workspace) : Raster :=
  match displayCanvasRef ws with
  | Some display => bitmap display
  | None => blank 0 0
  end.

(** [n] rounds of painting a stamp and pressing apply; the apply counter
    goes 1, 2, 3, ...; [strokes k] is the stamp of round [k]. *)
Fixpoint commits (n : nat) (strokes : nat -> nat -> nat -> Z) (preview : bool)
    (ws : Workspace) : Workspace :=
  match n with
  | O => ws
  | S k =>
      manualApplyEffect (Z.of_nat (S k)) preview
        (drawOnMask (strokes k) preview (commits k strokes preview ws))
  end.

(** The last [k] entries of a list. *)
Definition keepLast {A : Type} (k : nat) (l : list A) : list A :=
  skipn (length l - k) l.

(** ** Pointer events on the display canvas

    The handlers [handleMouseDown], [handleMouseMove], [handleMouseUp] and
    the inline [onMouseLeave] and [onMouseEnter].  An event that may paint
    carries [stamp], the coverage of the disc of radius [brushSize] centred
    at the position [getMousePos] computes for it. *)

Inductive PointerEvent : Type :=
| MouseDown (stamp : nat -> nat -> Z)
| MouseMove (stamp : nat -> nat -> Z)
| MouseUp
| MouseLeave
| MouseEnter.

Record PointerState : Type := mkPointer { isDrawing : bool; showCursor : bool }.

Definition handlePointer (preview : bool) (s : PointerState * Workspace)
    (ev : PointerEvent) : PointerState * Workspace :=
  let (ptr, ws) := s in
  match ev with
  | MouseDown stamp =>
      (mkPointer true (showCursor ptr), drawOnMask stamp preview ws)
  | MouseMove stamp =>
      if isDrawing ptr then (ptr, drawOnMask stamp preview ws) else (ptr, ws)
  | MouseUp => (mkPointer false (showCursor ptr), ws)
  | MouseLeave => (mkPointer false false, ws)
  | MouseEnter => (mkPointer (isDrawing ptr) true, ws)
  end.

Definition pointerRun (preview : bool) (events : list PointerEvent)
    (s : PointerState * Workspace) : PointerState * Workspace :=
  fold_left (handlePointer preview) events s.

Definition isMouseDown (ev : PointerEvent) : bool :=
  match ev with
  | MouseDown _ => true
  | _ => false
  end.

(** Undo pressed once for each trigger value of the list. *)
Definition undoRun (preview : bool) (triggers : list Z) (ws : Workspace) : Workspace :=
  fold_left (fun w t => undoEffect t preview w) triggers ws.

(** ** The props of the component *)

Record WorkspaceProps : Type := mkProps {
  originalImage : Raster;
  brushSize : Z;
  tolerance : Z;
  smoothing : Z;
  triggerAutoRemove : Z;
  triggerUndo : Z;
  triggerManualApply : Z;
  manualMaskPreview : bool;
  processedImageOverride : option string
}.

(** JS truthiness of a [string | null]. *)
Definition truthy (s : option string) : bool :=
  match s with
  | Some EmptyString => false
  | Some _ => true
  | None => false
  end.

Definition optionStringEqb (a b : option string) : bool :=
  match a, b with
  | Some x, Some y => String.eqb x y
  | None, None => true
  | _, _ => false
  end.

Definition rasterEqb (r s : Raster) : bool :=
  if Raster_eq_dec r s then true else false.

(** The refs before any effect has run; [display] is the mounted
    [<canvas>] element. *)
Definition mountedRefs (display : Canvas) : Workspace :=
  mkWorkspace (Some display) None None [].

(** A re-render in which one prop has changed. *)
Definition withPreview (b : bool) (p : WorkspaceProps) : WorkspaceProps :=
  mkProps (originalImage p) (brushSize p) (tolerance p) (smoothing p)
    (triggerAutoRemove p) (triggerUndo p) (triggerManualApply p) b
    (processedImageOverride p).

Definition withTolerance (tol : Z) (p : WorkspaceProps) : WorkspaceProps :=
  mkProps (originalImage p) (brushSize p) tol (smoothing p)
    (triggerAutoRemove p) (triggerUndo p) (triggerManualApply p)
    (manualMaskPreview p) (processedImageOverride p).

Definition withSmoothing (smooth : Z) (p : WorkspaceProps) : WorkspaceProps :=
  mkProps (originalImage p) (brushSize p) (tolerance p) smooth
    (triggerAutoRemove p) (triggerUndo p) (triggerManualApply p)
    (manualMaskPreview p) (processedImageOverride p).

Definition withBrushSize (size : Z) (p : WorkspaceProps) : WorkspaceProps :=
  mkProps (originalImage p) size (tolerance p) (smoothing p)
    (triggerAutoRemove p) (triggerUndo p) (triggerManualApply p)
    (manualMaskPreview p) (processedImageOverride p).

(** ** The AI collaborator: [services/geminiService.ts] *)

Inductive Completion (A : Type) : Type :=
| Resolved (value : A)
| Rejected (error : string).
Arguments Resolved {A} value.
Arguments Rejected {A} error.

Module GeminiService.

Record Blob : Type := mkBlob { mimeType : option string; data : option string }.
Record Part : Type := mkPart { inlineData : option Blob; text : option string }.
Record Content : Type := mkContent { parts : option (list Part) }.
Record Candidate : Type := mkCandidate { content : option Content }.
Record GenerateContentResponse : Type :=
  mkResponse { candidates : option (list Candidate) }.

Fixpoint dropPrefix (prefix s : string) : option string :=
  match prefix with
  | EmptyString => Some s
  | String a prefix' =>
      match s with
      | String b s' => if Ascii.eqb a b then dropPrefix prefix' s' else None
      | EmptyString => None
      end
  end.

Fixpoint dropFirstPrefix (prefixes : list string) (s : string) : string :=
  match prefixes with
  | [] => s
  | prefix :: rest =>
      match dropPrefix prefix s with
      | Some s' => s'
      | None => dropFirstPrefix rest s
      end
  end.

(** [base64Image.replace(/^data:image\/(png|jpeg|jpg|webp);base64,/, '')]. *)
Definition cleanBase64 (base64Image : string) : string :=
  dropFirstPrefix
    [ "data:image/png;base64,"%string; "data:image/jpeg;base64,"%string;
      "data:image/jpg;base64,"%string; "data:image/webp;base64,"%string ]
    base64Image.

(** [response.candidates?.[0]?.content?.parts]. *)
Definition responseParts (response : GenerateContentResponse) : option (list Part) :=
  match candidates response with
  | Some (candidate :: _) =>
      match content candidate with
      | Some c => parts c
      | None => None
      end
  | _ => None
  end.

Definition orElse (s : option string) (default : string) : string :=
  match s with
  | Some v => if truthy s then v else default
  | None => default
  end.

(** The loop over the parts: the first part with a payload wins. *)
Fixpoint firstInlineImage (ps : list Part) : option string :=
  match ps with
  | [] => None
  | part :: rest =>
      match inlineData part with
      | Some blob =>
          match data blob with
          | Some payload =>
              if truthy (data blob) then
                Some ("data:" ++ orElse (mimeType blob) "image/png"
                        ++ ";base64," ++ payload)%string
              else firstInlineImage rest
          | None => firstInlineImage rest
          end
      | None => firstInlineImage rest
      end
  end.

(** [generateContent] stands for the remote call
    [ai.models.generateContent], given the cleaned base64 payload. *)
Definition removeBackgroundWithAi
    (generateContent : string -> Completion GenerateContentResponse)
    (base64Image : string) : Completion (option string) :=
  match generateContent (cleanBase64 base64Image) with
  | Resolved response =>
      match responseParts response with
      | Some ps =>
          match firstInlineImage ps with
          | Some url => Resolved (Some url)
          | None => Resolved None
          end
      | None => Resolved None
      end
  | Rejected error => Rejected error
  end.

(** A part carries an image payload. *)
Definition hasPayload (part : Part) : bool :=
  match inlineData part with
  | Some blob => truthy (data blob)
  | None => false
  end.

(** The response carries no image payload at all. *)
Definition noPayload (response : GenerateContentResponse) : bool :=
  match responseParts response with
  | Some ps => forallb (fun part => negb (hasPayload part)) ps
  | None => true
  end.

End GeminiService.

(** ** The part of [App.tsx] that drives the AI replacement *)

Module App.

(** An [HTMLImageElement]: its [src] and its decoded pixels. *)
Record Image : Type := mkImage { src : string; decoded : Raster }.

Record State : Type := mkState {
  originalImage : option Image;
  isProcessing : bool;
  brushSize : Z;
  tolerance : Z;
  smoothing : Z;
  triggerAutoRemove : Z;
  processedImageOverride : option string;
  alerts : list string
}.

Definition setIsProcessing (b : bool) (st : State) : State :=
  mkState (originalImage st) b (brushSize st) (tolerance st) (smoothing st)
    (triggerAutoRemove st) (processedImageOverride st) (alerts st).

Definition setProcessedImageOverride (o : option string) (st : State) : State :=
  mkState (originalImage st) (isProcessing st) (brushSize st) (tolerance st)
    (smoothing st) (triggerAutoRemove st) o (alerts st).

Definition alert (msg : string) (st : State) : State :=
  mkState (originalImage st) (isProcessing st) (brushSize st) (tolerance st)
    (smoothing st) (triggerAutoRemove st) (processedImageOverride st)
    (alerts st ++ [msg]).

Definition handleAiRemove
    (generateContent : string -> Completion GeminiService.GenerateContentResponse)
    (st : State) : State :=
  match originalImage st with
  | None => st
  | Some img =>
      let st := setIsProcessing true st in
      let st :=
        match GeminiService.removeBackgroundWithAi generateContent (src img) with
        | Resolved aiResult =>
            if truthy aiResult then setProcessedImageOverride aiResult st else st
        | Rejected _ =>
            alert "Failed to remove background with AI. Please check API Key or try again." st
        end in
      setIsProcessing false st
  end.

(** The props the workspace is rendered with.  The undo and manual-apply
    counters and the preview flag are props [ImageWorkspace] declares and
    this [App.tsx] does not hold in its state; they are taken as given, the
    same before and after [handleAiRemove]. *)
Definition workspaceProps (st : State) (triggerUndo triggerManualApply : Z)
    (manualMaskPreview : bool) : option WorkspaceProps :=
  match originalImage st with
  | None => None
  | Some img =>
      Some (mkProps (decoded img) (brushSize st) (tolerance st) (smoothing st)
              (triggerAutoRemove st) triggerUndo triggerManualApply
              manualMaskPreview (processedImageOverride st))
  end.

End App.

(** ** Concrete collaborators, used to run the model on examples *)

(** Nearest-neighbour resampling. *)
Definition nearestSample (img : Raster) (w h x y : nat) : Pixel :=
  getPixel img (x * width img / w) (y * height img / h).

Definition channelDistance (p q : Pixel) : Z :=
  Z.max (Z.abs (red p - red q))
    (Z.max (Z.abs (green p - green q)) (Z.abs (blue p - blue q))).

(** A segmentation that keys out every pixel whose colour is within the
    tolerance of the top-left pixel. *)
Definition keyOutCorner (ctx : Canvas) (w h : nat) (tol smooth : Z) : Canvas :=
  let ref := getPixel (bitmap ctx) 0 0 in
  mapBitmap
    (fun x y p =>
       if (channelDistance p ref * 100 <=? tol * 255)%Z
       then mkPixel (red p) (green p) (blue p) 0 else p) ctx.

Definition opaqueGrey : Pixel := mkPixel 128 128 128 255.
Definition opaqueWhite : Pixel := mkPixel 255 255 255 255.

Definition greyDot : Raster := mkRaster 1 1 [opaqueGrey].
Definition greyWhitePair : Raster := mkRaster 2 1 [opaqueGrey; opaqueWhite].

Definition pairUrl : string := "data:image/png;base64,cGFpcg==".

(** A decoder that knows one image. *)
Definition decodePair (url : string) : option Raster :=
  if String.eqb url pairUrl then Some greyWhitePair else None.

(** A session just loaded with a one-pixel image, and the same session
    after one stamp whose coverage of the pixel is 128 of 255. *)
Definition freshDot : Workspace :=
  initEffect greyDot false (mountedRefs (createCanvas 1 1)).

Definition halfPainted (preview : bool) : Workspace :=
  drawOnMask (fun _ _ => 128%Z) preview (initEffect greyDot preview
                                           (mountedRefs (createCanvas 1 1))).

Definition dotProps : WorkspaceProps :=
  mkProps greyDot 30 15 0 0 0 0 false None.

(** An App showing the one-pixel image, and a service that is down. *)
Definition dotApp : App.State :=
  App.mkState (Some (App.mkImage "data:image/png;base64,ZG90" greyDot))
    false 30 15 0 0 None [].

Definition serviceDown (request : string)
    : Completion GeminiService.GenerateContentResponse :=
  Rejected "503".

Definition withOverride (override : option string) (p : WorkspaceProps)
    : WorkspaceProps :=
  mkProps (originalImage p) (brushSize p) (tolerance p) (smoothing p)
    (triggerAutoRemove p) (triggerUndo p) (triggerManualApply p)
    (manualMaskPreview p) override.

(** The props after [handleAutoRemove]: the counter one up, the override
    cleared. *)
Definition withAutoRemovePressed (p : WorkspaceProps) : WorkspaceProps :=
  mkProps (originalImage p) (brushSize p) (tolerance p) (smoothing p)
    (triggerAutoRemove p + 1) (triggerUndo p) (triggerManualApply p)
    (manualMaskPreview p) None.

(** ** The other handlers of [App.tsx]

    [App.State] above holds what [handleAiRemove] reads and writes.  The
    handlers below need the rest of the App's state as well.  File reading
    and image decoding are collapsed: a [File] carries the image its data
    URL decodes to, [None] when [img.onload] never fires.
    [analyzeImageForNaming] is not in the source files at hand: the
    requests made to it are recorded, and its answer comes back as an
    event. *)

Module Shell.

Record File : Type := mkFile {
  name : string;
  type : string;
  picture : option App.Image
}.

Record State : Type := mkState {
  core : App.State;
  processedImage : option string;
  fileName : string;
  aiSuggestedName : option string;
  isAnalysing : bool;
  analysisRequests : list string;
  downloads : list (string * string)
}.

(** [name.split('.')[0]]. *)
Fixpoint beforeDot (s : string) : string :=
  match s with
  | EmptyString => EmptyString
  | String c rest =>
      if Ascii.eqb c "." then EmptyString else String c (beforeDot rest)
  end.

Fixpoint hasDot (s : string) : bool :=
  match s with
  | EmptyString => false
  | String c rest => Ascii.eqb c "." || hasDot rest
  end.

Definition setTriggerAutoRemove (t : Z) (st : App.State) : App.State :=
  App.mkState (App.originalImage st) (App.isProcessing st) (App.brushSize st)
    (App.tolerance st) (App.smoothing st) t (App.processedImageOverride st)
    (App.alerts st).

Definition setOriginalImage (img : option App.Image) (st : App.State) : App.State :=
  App.mkState img (App.isProcessing st) (App.brushSize st)
    (App.tolerance st) (App.smoothing st) (App.triggerAutoRemove st)
    (App.processedImageOverride st) (App.alerts st).

(** [handleAutoRemove], with the body of its timeout. *)
Definition handleAutoRemove (st : App.State) : App.State :=
  let st := App.setIsProcessing true st in
  let st := setTriggerAutoRemove (App.triggerAutoRemove st + 1) st in
  let st := App.setProcessedImageOverride None st in
  App.setIsProcessing false st.

(** [handleImageUpload], given [e.target.files?.[0]]. *)
Definition handleImageUpload (file : option File) (st : State) : State :=
  match file with
  | Some f =>
      match picture f with
      | Some img =>
          mkState
            (App.setProcessedImageOverride None (setOriginalImage (Some img) (core st)))
            None (beforeDot (name f)) (aiSuggestedName st) false
            (analysisRequests st) (downloads st)
      | None => st
      end
  | None => st
  end.

(** [handleDrop], given [e.dataTransfer.files?.[0]]. *)
Definition handleDrop (file : option File) (st : State) : State :=
  match file with
  | Some f =>
      if String.prefix "image/" (type f) then
        match picture f with
        | Some img =>
            mkState
              (App.setProcessedImageOverride None
                 (setOriginalImage (Some img) (core st)))
              None (beforeDot (name f)) None false
              (analysisRequests st) (downloads st)
        | None => st
        end
      else st
  | None => st
  end.

(** [handleProcessedImageUpdate]; the call of [triggerGeminiAnalysis] is
    recorded as a request. *)
Definition handleProcessedImageUpdate (dataUrl : string) (st : State) : State :=
  if negb (isAnalysing st) && negb (truthy (aiSuggestedName st))
     && match App.originalImage (core st) with Some _ => true | None => false end
  then
    mkState (core st) (Some dataUrl) (fileName st) (aiSuggestedName st) true
      (analysisRequests st ++ [dataUrl]) (downloads st)
  else
    mkState (core st) (Some dataUrl) (fileName st) (aiSuggestedName st)
      (isAnalysing st) (analysisRequests st) (downloads st).

(** The continuation of [triggerGeminiAnalysis] once the name has come. *)
Definition analysisResolved (suggestedName : string) (st : State) : State :=
  mkState (core st) (processedImage st) suggestedName (Some suggestedName) false
    (analysisRequests st) (downloads st).

(** [handleDownload]; a click on the link is recorded with its file name
    and its target. *)
Definition handleDownload (st : State) : State :=
  match processedImage st with
  | Some url =>
      if truthy (processedImage st) then
        mkState (core st) (processedImage st) (fileName st) (aiSuggestedName st)
          (isAnalysing st) (analysisRequests st)
          (downloads st ++ [((fileName st ++ ".png")%string, url)])
      else st
  | None => st
  end.

(** [onUploadClick]. *)
Definition onUploadClick (st : State) : State :=
  mkState (setOriginalImage None (core st)) (processedImage st) (fileName st)
    (aiSuggestedName st) (isAnalysing st) (analysisRequests st) (downloads st).


Inductive Event : Type :=
| Upload (file : option File)
| Drop (file : option File)
| Updated (dataUrl : string)
| Suggested (suggestedName : string)
| NewImage
| Download.

Definition step (st : State) (ev : Event) : State :=
  match ev with
  | Upload file => handleImageUpload file st
  | Drop file => handleDrop file st
  | Updated dataUrl => handleProcessedImageUpdate dataUrl st
  | Suggested suggestedName => analysisResolved suggestedName st
  | NewImage => onUploadClick st
  | Download => handleDownload st
  end.

Definition run (events : list Event) (st : State) : State :=
  fold_left step events st.

(** Events that leave a stored suggestion in place and truthy. *)
Definition keepsSuggestion (ev : Event) : bool :=
  match ev with
  | Drop _ => false
  | Suggested suggestedName => truthy (Some suggestedName)
  | _ => true
  end.

End Shell.

(** ** The one-canvas workspace of [src/unnamed/part_000]

    This version of the component draws on a single canvas and has no mask
    and no history.  Its ref is the canvas; the segmentation routine and
    the decoder are arguments, as for the layered component.  Its mouse
    handlers call [applyManualEraser], which is not in the source files at
    hand, and are left out. *)

Module SingleCanvas.

(** The initialisation effect. *)
Definition initEffect (img : Raster) (canvasRef : option Canvas) : option Canvas :=
  match canvasRef with
  | Some _ => Some (drawImage img (createCanvas (width img) (height img)))
  | None => None
  end.

(** The AI-override effect, with the body of [img.onload]. *)
Definition aiOverrideEffect (decodeImage : string -> option Raster)
    (override : option string) (canvasRef : option Canvas) : option Canvas :=
  match override, canvasRef with
  | Some url, Some _ =>
      if truthy override then
        match decodeImage url with
        | Some img =>
            let resized := createCanvas (width img) (height img) in
            Some (drawImage img (clearRect (width img) (height img) resized))
        | None => canvasRef
        end
      else canvasRef
  | _, _ => canvasRef
  end.

(** The auto-remove effect. *)
Definition autoRemoveEffect
    (removeBackgroundSmart : Canvas -> nat -> nat -> Z -> Z -> Canvas)
    (trigger : Z) (img : Raster) (tol smooth : Z)
    (canvasRef : option Canvas) : option Canvas :=
  if (trigger =? 0)%Z then canvasRef
  else
    match canvasRef with
    | Some canvas =>
        let w := width (bitmap canvas) in
        let h := height (bitmap canvas) in
        let fresh :=
          drawImage img (clearRect w h (setCompositeOperation SourceOver canvas)) in
        Some (removeBackgroundSmart fresh w h tol smooth)
    | None => None
    end.

(** The three effects after a render, by their dependencies. *)
Definition runEffects
    (removeBackgroundSmart : Canvas -> nat -> nat -> Z -> Z -> Canvas)
    (decodeImage : string -> option Raster)
    (prev : option WorkspaceProps) (p : WorkspaceProps)
    (canvasRef : option Canvas) : option Canvas :=
  let changed {A : Type} (eqb : A -> A -> bool) (f : WorkspaceProps -> A) :=
    match prev with
    | None => true
    | Some q => negb (eqb (f q) (f p))
    end in
  let canvasRef :=
    if changed rasterEqb originalImage
    then initEffect (originalImage p) canvasRef else canvasRef in
  let canvasRef :=
    if changed optionStringEqb processedImageOverride
    then aiOverrideEffect decodeImage (processedImageOverride p) canvasRef
    else canvasRef in
  if changed Z.eqb triggerAutoRemove
     || changed rasterEqb originalImage
     || changed Z.eqb tolerance
     || changed Z.eqb smoothing
  then autoRemoveEffect removeBackgroundSmart (triggerAutoRemove p)
         (originalImage p) (tolerance p) (smoothing p) canvasRef
  else canvasRef.

Definition pixels (canvasRef : option Canvas) : Raster :=
  match canvasRef with
  | Some canvas => bitmap canvas
  | None => blank 0 0
  end.

End SingleCanvas.

(** ** More example inputs *)

(** An answer of the service: a text part, then an image part without a
    MIME type. *)
Definition answerWithImage : GeminiService.GenerateContentResponse :=
  GeminiService.mkResponse
    (Some [GeminiService.mkCandidate
             (Some (GeminiService.mkContent
                      (Some [GeminiService.mkPart None (Some "Here it is."%string);
                             GeminiService.mkPart
                               (Some (GeminiService.mkBlob None (Some "cGFpcg=="%string)))
                               None])))]).

Definition serviceUp (request : string)
    : Completion GeminiService.GenerateContentResponse :=
  Resolved answerWithImage.

Definition holidayPhoto : Shell.File :=
  Shell.mkFile "holiday.2024.jpg" "image/jpeg"
    (Some (App.mkImage "data:image/jpeg;base64,ZG90" greyDot)).

(** The App as [useState] initialises it, and the same with a picture
    reported and a name suggested. *)
Definition shellStart : Shell.State :=
  Shell.mkState (App.mkState None false 30 15 0 0 None [])
    None "processed_image" None false [] [].

Definition shellNamed : Shell.State :=
  Shell.mkState dotApp (Some "data:image/png;base64,ZG90"%string) "grey_dot"
    (Some "grey_dot"%string) false ["data:image/png;base64,ZG90"%string] [].

(** ** Effects that depend on code outside the component

    Three things the effects call are not defined in the source files at
    hand and are taken as parameters:
    - [removeBackgroundSmart], imported from [utils/imageProcessing];
    - the browser's decoder of a data URL ([new Image(); img.src = url]),
      [None] when [onload] never fires;
    - the browser's resampling filter: [sample img w h x y] is the colour
      of destination pixel (x,y) when [img] is drawn into a [w] by [h]
      rectangle by [drawImage(img, 0, 0, w, h)]. *)

Section Engine.

Variable removeBackgroundSmart : Canvas -> nat -> nat -> Z -> Z -> Canvas.
Variable decodeImage : string -> option Raster.
Variable sample : Raster -> nat -> nat -> nat -> nat -> Pixel.

(** [ctx.drawImage(img, 0, 0, w, h)]. *)
Definition drawImageScaled (img : Raster) (w h : nat) (c : Canvas) : Canvas :=
  paint (fun x y => if (x <? w) && (y <? h) then sample img w h x y
                    else transparent) c.

(** The AI-override effect, with the body of [img.onload]. *)
Definition aiOverrideEffect (override : option string) (preview : bool)
    (ws : Workspace) : Workspace :=
  match override, baseLayerRef ws with
  | Some url, Some base =>
      if truthy override then
        match decodeImage url with
        | None => ws
        | Some img =>
            let w := width (bitmap base) in
            let h := height (bitmap base) in
            let ctx := drawImageScaled img w h (clearRect w h base) in
            renderCanvas preview
              (mkWorkspace (displayCanvasRef ws) (Some ctx)
                 (clearMask w h (maskLayerRef ws))
                 [getImageData w h ctx])
        end
      else ws
  | _, _ => ws
  end.

(** The auto-remove effect. *)
Definition autoRemoveEffect (trigger : Z) (img : Raster) (tol smooth : Z)
    (preview : bool) (ws : Workspace) : Workspace :=
  if (trigger =? 0)%Z then ws
  else
    match baseLayerRef ws with
    | None => ws
    | Some base =>
        let w := width (bitmap base) in
        let h := height (bitmap base) in
        let fresh :=
          drawImage img (clearRect w h (setCompositeOperation SourceOver base)) in
        let ctx := removeBackgroundSmart fresh w h tol smooth in
        renderCanvas preview
          (mkWorkspace (displayCanvasRef ws) (Some ctx)
             (clearMask w h (maskLayerRef ws))
             [getImageData w h ctx])
    end.

(** ** React: effects run after a render when one of their dependencies
    changed, in the order they are declared; all run on mount. *)

Definition changed {A : Type} (eqb : A -> A -> bool) (f : WorkspaceProps -> A)
    (prev : option WorkspaceProps) (p : WorkspaceProps) : bool :=
  match prev with
  | None => true
  | Some q => negb (eqb (f q) (f p))
  end.

Definition runEffects (prev : option WorkspaceProps) (p : WorkspaceProps)
    (ws : Workspace) : Workspace :=
  let preview := manualMaskPreview p in
  let ws :=
    if changed rasterEqb originalImage prev p
    then initEffect (originalImage p) preview ws else ws in
  let ws :=
    if changed Bool.eqb manualMaskPreview prev p
    then renderCanvas preview ws else ws in
  let ws :=
    if changed optionStringEqb processedImageOverride prev p
    then aiOverrideEffect (processedImageOverride p) preview ws else ws in
  let ws :=
    if changed Z.eqb triggerAutoRemove prev p
       || changed rasterEqb originalImage prev p
       || changed Z.eqb tolerance prev p
       || changed Z.eqb smoothing prev p
    then autoRemoveEffect (triggerAutoRemove p) (originalImage p)
           (tolerance p) (smoothing p) preview ws
    else ws in
  let ws :=
    if changed Z.eqb triggerUndo prev p
    then undoEffect (triggerUndo p) preview ws else ws in
  if changed Z.eqb triggerManualApply prev p
  then manualApplyEffect (triggerManualApply p) preview ws else ws.

(** Session states a mounted component can be in: after the mount, after
    any re-render with new props, after any brush stamp. *)
Inductive reachable : WorkspaceProps -> Workspace -> Prop :=
| reach_mount : forall display p,
    reachable p (runEffects None p (mountedRefs display))
| reach_update : forall q p ws,
    reachable q ws -> reachable p (runEffects (Some q) p ws)
| reach_stroke : forall p coverage ws,
    reachable p ws -> reachable p (drawOnMask coverage (manualMaskPreview p) ws).

(** What every reachable session satisfies. *)
Definition wfCanvas (w h : nat) (c : Canvas) : Prop :=
  wfRaster (bitmap c) /\ width (bitmap c) = w /\ height (bitmap c) = h /\
  globalCompositeOperation c = SourceOver /\ globalAlpha c = alphaOne.

Definition wfSnapshot (w h : nat) (snap : Raster) : Prop :=
  wfRaster snap /\ width snap = w /\ height snap = h.

Definition sessionInvariant (ws : Workspace) : Prop :=
  exists display base mask,
    displayCanvasRef ws = Some display /\
    baseLayerRef ws = Some base /\
    maskLayerRef ws = Some mask /\
    wfCanvas (width (bitmap base)) (height (bitmap base)) display /\
    wfCanvas (width (bitmap base)) (height (bitmap base)) base /\
    wfCanvas (width (bitmap base)) (height (bitmap base)) mask /\
    Forall (wfSnapshot (width (bitmap base)) (height (bitmap base))) (historyRef ws) /\
    historyRef ws <> [] /\
    length (historyRef ws) <= historyLimit /\
    last (historyRef ws) (blank 0 0) = bitmap base.

(** The pixel the render loop shows, from the base and mask pixels. *)
Definition shown (manualMaskPreview : bool) (b m : Pixel) : Pixel :=
  if manualMaskPreview
  then destinationOut alphaOne m (sourceOver alphaOne b transparent)
  else sourceOver alphaSixty m (sourceOver alphaOne b transparent).

(** What is assumed of the segmentation routine: it rewrites the pixels of
    the canvas it is given and leaves its size and context state alone. *)
Hypothesis removeBackgroundSmart_canvas :
  forall c w h tol smooth,
    wfCanvas w h c -> wfCanvas w h (removeBackgroundSmart c w h tol smooth).

(** ** Arithmetic of the 8-bit scale *)

Lemma mul8_full (a : Z) : mul8 a 255 = a.
Proof.
  unfold mul8. rewrite Z.div_add_l by lia. change (127 / 255)%Z with 0%Z. lia.
Qed.

Lemma mul8_zero_l (b : Z) : mul8 0 b = 0%Z.
Proof. reflexivity. Qed.

Lemma mul8_zero_r (a : Z) : mul8 a 0 = 0%Z.
Proof. unfold mul8. rewrite Z.mul_0_r. reflexivity. Qed.

(** A source pixel without alpha leaves the destination as it is. *)
Lemma blend_uncovered (op : CompositeOp) (ga : Z) (s d : Pixel) :
  alpha s = 0%Z -> blend op ga s d = d.
Proof.
  intros Hs. destruct op; cbn.
  - unfold sourceOver. rewrite Hs. reflexivity.
  - unfold destinationOut. rewrite Hs, mul8_zero_l.
    change (255 - 0)%Z with 255%Z.
    rewrite mul8_full. destruct d; reflexivity.
Qed.

(** ** Row-major indexing *)

Lemma index_split (w x y : nat) :
  x < w -> (y * w + x) mod w = x /\ (y * w + x) / w = y.
Proof.
  intros Hx. split.
  - rewrite Nat.add_comm, Nat.Div0.mod_add. apply Nat.mod_small, Hx.
  - rewrite Nat.add_comm, Nat.div_add by lia.
    rewrite Nat.div_small by exact Hx. lia.
Qed.

Lemma index_bound (w h x y : nat) : x < w -> y < h -> y * w + x < w * h.
Proof. intros Hx Hy. nia. Qed.

Lemma getPixel_tabulate (w h : nat) (f : nat -> nat -> Pixel) (x y : nat) :
  x < w -> y < h -> getPixel (tabulate w h f) x y = f x y.
Proof.
  intros Hx Hy. unfold getPixel, tabulate. cbn [width height data].
  apply Nat.ltb_lt in Hx as Hx'. apply Nat.ltb_lt in Hy as Hy'.
  rewrite Hx', Hy'. cbn [andb].
  pose proof (index_bound w h x y Hx Hy) as Hi.
  rewrite nth_indep with (d' := f (0 mod w) (0 / w))
    by (rewrite length_map, length_seq; exact Hi).
  rewrite (map_nth (fun i => f (i mod w) (i / w))).
  rewrite seq_nth by exact Hi. cbn [Nat.add].
  destruct (index_split w x y Hx) as [-> ->]. reflexivity.
Qed.

Lemma getPixel_outside (r : Raster) (x y : nat) :
  width r <= x \/ height r <= y -> getPixel r x y = transparent.
Proof.
  intros H. unfold getPixel.
  destruct (x <? width r) eqn:Ex; [|reflexivity].
  destruct (y <? height r) eqn:Ey; [|reflexivity].
  apply Nat.ltb_lt in Ex, Ey. lia.
Qed.

Lemma wfRaster_tabulate (w h : nat) (f : nat -> nat -> Pixel) :
  wfRaster (tabulate w h f).
Proof.
  unfold wfRaster, tabulate. cbn. rewrite length_map, length_seq. reflexivity.
Qed.

Lemma tabulate_ext (w h : nat) (f g : nat -> nat -> Pixel) :
  (forall x y, x < w -> y < h -> f x y = g x y) ->
  tabulate w h f = tabulate w h g.
Proof.
  intros H. unfold tabulate. f_equal. apply map_ext_in.
  intros i Hi. apply in_seq in Hi. cbn in Hi.
  assert (0 < w) by (destruct w; [cbn in Hi; lia | lia]).
  apply H.
  - apply Nat.mod_upper_bound. lia.
  - apply Nat.Div0.div_lt_upper_bound. lia.
Qed.

Lemma tabulate_getPixel (r : Raster) :
  wfRaster r -> tabulate (width r) (height r) (getPixel r) = r.
Proof.
  destruct r as [w h d]. unfold wfRaster. cbn [width height data]. intros Hlen.
  unfold tabulate. f_equal.
  apply nth_ext with (d := transparent) (d' := transparent).
  - rewrite length_map, length_seq. symmetry. exact Hlen.
  - intros i Hi. rewrite length_map, length_seq in Hi.
    rewrite nth_indep with (d' := getPixel (mkRaster w h d) (0 mod w) (0 / w))
      by (rewrite length_map, length_seq; exact Hi).
    rewrite (map_nth (fun i => getPixel (mkRaster w h d) (i mod w) (i / w))).
    rewrite seq_nth by exact Hi. cbn [Nat.add].
    assert (0 < w) by (destruct w; [cbn in Hi; lia | lia]).
    unfold getPixel. cbn [width height data].
    assert (Hx : i mod w < w) by (apply Nat.mod_upper_bound; lia).
    assert (Hy : i / w < h) by (apply Nat.Div0.div_lt_upper_bound; lia).
    apply Nat.ltb_lt in Hx, Hy. rewrite Hx, Hy. cbn [andb].
    f_equal. rewrite (Nat.div_mod_eq i w) at 3. lia.
Qed.

(** ** Canvas primitives *)

Lemma getPixel_mapBitmap (f : nat -> nat -> Pixel -> Pixel) (c : Canvas) (x y : nat) :
  x < width (bitmap c) -> y < height (bitmap c) ->
  getPixel (bitmap (mapBitmap f c)) x y = f x y (getPixel (bitmap c) x y).
Proof. intros Hx Hy. unfold mapBitmap. cbn [bitmap]. now apply getPixel_tabulate. Qed.

Lemma mapBitmap_id (f : nat -> nat -> Pixel -> Pixel) (c : Canvas) :
  wfRaster (bitmap c) ->
  (forall x y, x < width (bitmap c) -> y < height (bitmap c) ->
     f x y (getPixel (bitmap c) x y) = getPixel (bitmap c) x y) ->
  mapBitmap f c = c.
Proof.
  intros Hwf H. unfold mapBitmap.
  rewrite (tabulate_ext _ _ _ (getPixel (bitmap c))) by exact H.
  rewrite tabulate_getPixel by exact Hwf. destruct c; reflexivity.
Qed.

Lemma wfCanvas_create (w h : nat) : wfCanvas w h (createCanvas w h).
Proof.
  unfold wfCanvas, createCanvas, blank. cbn.
  repeat split. apply wfRaster_tabulate.
Qed.

Lemma wfCanvas_mapBitmap (w h : nat) (f : nat -> nat -> Pixel -> Pixel) (c : Canvas) :
  width (bitmap c) = w -> height (bitmap c) = h ->
  globalCompositeOperation c = SourceOver -> globalAlpha c = alphaOne ->
  wfCanvas w h (mapBitmap f c).
Proof.
  intros Hw Hh Hop Hga. unfold wfCanvas, mapBitmap. cbn.
  repeat split; try assumption. apply wfRaster_tabulate.
Qed.

Lemma getImageData_whole (w h : nat) (c : Canvas) :
  wfRaster (bitmap c) -> width (bitmap c) = w -> height (bitmap c) = h ->
  getImageData w h c = bitmap c.
Proof.
  intros Hwf <- <-. unfold getImageData. now apply tabulate_getPixel.
Qed.

Lemma putImageData_whole (img : Raster) (c : Canvas) :
  wfRaster img -> width (bitmap c) = width img -> height (bitmap c) = height img ->
  bitmap (putImageData img c) = img.
Proof.
  intros Hwf Hw Hh. unfold putImageData, mapBitmap. cbn [bitmap].
  rewrite Hw, Hh.
  rewrite (tabulate_ext _ _ _ (getPixel img)).
  - now apply tabulate_getPixel.
  - intros x y Hx Hy. apply Nat.ltb_lt in Hx, Hy. now rewrite Hx, Hy.
Qed.

Lemma clearRect_pixel (w h : nat) (c : Canvas) (x y : nat) :
  width (bitmap c) <= w -> height (bitmap c) <= h ->
  getPixel (bitmap (clearRect w h c)) x y = transparent.
Proof.
  intros Hw Hh.
  destruct (Nat.lt_ge_cases x (width (bitmap c))) as [Hx|Hx];
    [destruct (Nat.lt_ge_cases y (height (bitmap c))) as [Hy|Hy]|].
  - unfold clearRect. rewrite getPixel_mapBitmap by assumption.
    assert (Hx' : (x <? w) = true) by (apply Nat.ltb_lt; lia).
    assert (Hy' : (y <? h) = true) by (apply Nat.ltb_lt; lia).
    now rewrite Hx', Hy'.
  - apply getPixel_outside. right. exact Hy.
  - apply getPixel_outside. left. exact Hx.
Qed.

Lemma clearRect_blank (w h : nat) (c : Canvas) :
  width (bitmap c) <= w -> height (bitmap c) <= h ->
  bitmap (clearRect w h c) = blank (width (bitmap c)) (height (bitmap c)).
Proof.
  intros Hw Hh. unfold clearRect, mapBitmap, blank. cbn [bitmap].
  apply tabulate_ext. intros x y Hx Hy.
  assert (Hx' : (x <? w) = true) by (apply Nat.ltb_lt; lia).
  assert (Hy' : (y <? h) = true) by (apply Nat.ltb_lt; lia).
  now rewrite Hx', Hy'.
Qed.

Lemma isEmpty_blank (w h : nat) : isEmpty (blank w h).
Proof.
  intros x y.
  destruct (Nat.lt_ge_cases x w) as [Hx|Hx];
    [destruct (Nat.lt_ge_cases y h) as [Hy|Hy]|].
  - unfold blank. now rewrite getPixel_tabulate.
  - rewrite getPixel_outside; [reflexivity | right; exact Hy].
  - rewrite getPixel_outside; [reflexivity | left; exact Hx].
Qed.

(** Drawing a raster without any alpha changes nothing, whatever the
    operator. *)
Lemma drawImage_empty (src : Raster) (c : Canvas) :
  wfRaster (bitmap c) -> isEmpty src -> drawImage src c = c.
Proof.
  intros Hwf Hsrc. unfold drawImage, paint. apply mapBitmap_id; [exact Hwf|].
  intros x y _ _. apply blend_uncovered, Hsrc.
Qed.

Lemma getPixel_paint (src : nat -> nat -> Pixel) (c : Canvas) (x y : nat) :
  x < width (bitmap c) -> y < height (bitmap c) ->
  getPixel (bitmap (paint src c)) x y =
  blend (globalCompositeOperation c) (globalAlpha c) (src x y)
    (getPixel (bitmap c) x y).
Proof. intros Hx Hy. unfold paint. now rewrite getPixel_mapBitmap. Qed.

Lemma getPixel_clearRect (c : Canvas) (x y : nat) :
  x < width (bitmap c) -> y < height (bitmap c) ->
  getPixel (bitmap (clearRect (width (bitmap c)) (height (bitmap c)) c)) x y =
  transparent.
Proof. intros Hx Hy. now apply clearRect_pixel. Qed.

(** ** The render loop *)

Lemma composite_pixel (preview : bool) (base mask display : Canvas) (x y : nat) :
  globalAlpha display = alphaOne ->
  x < width (bitmap display) -> y < height (bitmap display) ->
  getPixel (bitmap (composite preview base mask display)) x y =
  shown preview (getPixel (bitmap base) x y) (getPixel (bitmap mask) x y).
Proof.
  intros Hga Hx Hy.
  unfold composite, shown, drawImage, paint, clearRect, mapBitmap,
    setCompositeOperation, setGlobalAlpha.
  destruct preview; cbn [bitmap globalAlpha globalCompositeOperation blend];
    repeat (rewrite getPixel_tabulate by first [exact Hx | exact Hy]);
    apply Nat.ltb_lt in Hx, Hy; rewrite Hx, Hy, Hga; reflexivity.
Qed.

Lemma composite_state (preview : bool) (base mask display : Canvas) :
  width (bitmap (composite preview base mask display)) = width (bitmap display) /\
  height (bitmap (composite preview base mask display)) = height (bitmap display) /\
  wfRaster (bitmap (composite preview base mask display)) /\
  globalCompositeOperation (composite preview base mask display) = SourceOver /\
  globalAlpha (composite preview base mask display) =
    (if preview then globalAlpha display else alphaOne).
Proof.
  unfold composite. destruct preview; cbn; repeat split; apply wfRaster_tabulate.
Qed.

Lemma wfCanvas_composite (w h : nat) (preview : bool) (base mask display : Canvas) :
  wfCanvas w h display -> wfCanvas w h (composite preview base mask display).
Proof.
  intros (_ & Hw & Hh & _ & Hga).
  destruct (composite_state preview base mask display) as (Hw' & Hh' & Hwf & Hop & Hga').
  unfold wfCanvas. rewrite Hw', Hh', Hga'. repeat split; try assumption.
  destruct preview; [exact Hga | reflexivity].
Qed.

Lemma renderCanvas_frame (preview : bool) (ws : Workspace) :
  baseLayerRef (renderCanvas preview ws) = baseLayerRef ws /\
  maskLayerRef (renderCanvas preview ws) = maskLayerRef ws /\
  historyRef (renderCanvas preview ws) = historyRef ws.
Proof.
  unfold renderCanvas.
  destruct (displayCanvasRef ws), (baseLayerRef ws) eqn:Eb, (maskLayerRef ws) eqn:Em;
    cbn; rewrite ?Eb, ?Em; auto.
Qed.

Lemma renderCanvas_invariant (preview : bool) (ws : Workspace) :
  sessionInvariant ws -> sessionInvariant (renderCanvas preview ws).
Proof.
  intros (display & base & mask & Hd & Hb & Hm & Wd & Wb & Wm & Hall & Hne & Hlen & Hlast).
  unfold renderCanvas. rewrite Hd, Hb, Hm.
  exists (composite preview base mask display), base, mask. cbn.
  repeat split; try assumption; try apply Wb; try apply Wm;
    apply (wfCanvas_composite _ _ preview base mask display Wd).
Qed.

(** ** The history array *)

Lemma pushSnapshot_cases (snap : Raster) (history : list Raster) :
  pushSnapshot snap history =
  if length history <? historyLimit then history ++ [snap]
  else tl history ++ [snap].
Proof.
  unfold pushSnapshot. cbn zeta. rewrite length_app. cbn [length].
  destruct (length history <? historyLimit) eqn:E.
  - apply Nat.ltb_lt in E.
    assert (H : (historyLimit <? length history + 1) = false)
      by (apply Nat.ltb_ge; lia).
    now rewrite H.
  - apply Nat.ltb_ge in E.
    assert (H : (historyLimit <? length history + 1) = true)
      by (apply Nat.ltb_lt; lia).
    rewrite H. destruct history; [cbn in E; unfold historyLimit in E; lia | reflexivity].
Qed.

Lemma pushSnapshot_length (snap : Raster) (history : list Raster) :
  length history <= historyLimit ->
  length (pushSnapshot snap history) <= historyLimit.
Proof.
  intros H. rewrite pushSnapshot_cases.
  destruct (length history <? historyLimit) eqn:E.
  - apply Nat.ltb_lt in E. rewrite length_app. cbn. lia.
  - rewrite length_app. cbn. destruct history; cbn in *; lia.
Qed.

Lemma pushSnapshot_last (snap d : Raster) (history : list Raster) :
  last (pushSnapshot snap history) d = snap.
Proof.
  rewrite pushSnapshot_cases.
  destruct (length history <? historyLimit); apply last_last.
Qed.

Lemma pushSnapshot_nonempty (snap : Raster) (history : list Raster) :
  pushSnapshot snap history <> [].
Proof.
  rewrite pushSnapshot_cases.
  destruct (length history <? historyLimit); intros H;
    apply app_eq_nil in H; destruct H; discriminate.
Qed.

Lemma pushSnapshot_Forall (P : Raster -> Prop) (snap : Raster) (history : list Raster) :
  P snap -> Forall P history -> Forall P (pushSnapshot snap history).
Proof.
  intros Hs Hh. rewrite pushSnapshot_cases.
  destruct (length history <? historyLimit); apply Forall_app; split;
    try (constructor; [exact Hs | constructor]); try exact Hh.
  destruct Hh; [constructor | assumption].
Qed.

(** Popping the entry just pushed gives back a history that ends where the
    old one ended. *)
Lemma removelast_pushSnapshot (snap d : Raster) (history : list Raster) :
  history <> [] -> length history <= historyLimit ->
  removelast (pushSnapshot snap history) <> [] /\
  last (removelast (pushSnapshot snap history)) d = last history d.
Proof.
  intros Hne Hlen. rewrite pushSnapshot_cases.
  destruct (length history <? historyLimit) eqn:E.
  - rewrite removelast_last. split; [exact Hne | reflexivity].
  - apply Nat.ltb_ge in E. rewrite removelast_last.
    destruct history as [|a [|b rest]]; cbn in E; unfold historyLimit in E; try lia.
    split; [discriminate | reflexivity].
Qed.

(** ** Each effect keeps the session invariant *)

Lemma sessionInvariant_intro (w h : nat) (display base mask : Canvas)
    (history : list Raster) :
  wfCanvas w h display -> wfCanvas w h base -> wfCanvas w h mask ->
  Forall (wfSnapshot w h) history -> history <> [] ->
  length history <= historyLimit ->
  last history (blank 0 0) = bitmap base ->
  sessionInvariant (mkWorkspace (Some display) (Some base) (Some mask) history).
Proof.
  intros Wd Wb Wm Hall Hne Hlen Hlast.
  exists display, base, mask. cbn.
  destruct Wb as (Hwf & Hw & Hh & Hop & Hga).
  rewrite Hw, Hh. repeat split; try assumption; try apply Wd; try apply Wm.
Qed.

Lemma sessionInvariant_reset (w h : nat) (display base mask : Canvas) :
  wfCanvas w h display -> wfCanvas w h base -> wfCanvas w h mask ->
  sessionInvariant
    (mkWorkspace (Some display) (Some base) (Some mask) [getImageData w h base]).
Proof.
  intros Wd Wb Wm.
  assert (Hsnap : getImageData w h base = bitmap base)
    by (apply getImageData_whole; apply Wb).
  apply (sessionInvariant_intro w h); try assumption.
  - constructor; [|constructor]. rewrite Hsnap.
    destruct Wb as (Hwf & Hw & Hh & _). repeat split; assumption.
  - discriminate.
  - cbn. unfold historyLimit. lia.
Qed.

Lemma initEffect_invariant (img : Raster) (preview : bool) (ws : Workspace) :
  displayCanvasRef ws <> None -> sessionInvariant (initEffect img preview ws).
Proof.
  intros Hd. unfold initEffect.
  destruct (displayCanvasRef ws) as [d|]; [|contradiction].
  apply renderCanvas_invariant, sessionInvariant_reset.
  - apply wfCanvas_create.
  - apply wfCanvas_mapBitmap; reflexivity.
  - apply wfCanvas_create.
Qed.

Lemma aiOverrideEffect_invariant (override : option string) (preview : bool)
    (ws : Workspace) :
  sessionInvariant ws -> sessionInvariant (aiOverrideEffect override preview ws).
Proof.
  intros Hinv.
  pose proof Hinv as
    (display & base & mask & Hd & Hb & Hm & Wd & Wb & Wm & _).
  unfold aiOverrideEffect. rewrite Hb, Hd, Hm.
  destruct override as [url|]; [|exact Hinv].
  destruct (truthy (Some url)); [|exact Hinv].
  destruct (decodeImage url) as [img|]; [|exact Hinv].
  destruct Wb as (_ & _ & _ & Hop & Hga). destruct Wm as (_ & Hmw & Hmh & Hmop & Hmga).
  apply renderCanvas_invariant. cbn [clearMask option_map].
  apply sessionInvariant_reset.
  - exact Wd.
  - apply wfCanvas_mapBitmap; try reflexivity; assumption.
  - apply wfCanvas_mapBitmap; assumption.
Qed.

Lemma autoRemoveEffect_invariant (trigger : Z) (img : Raster) (tol smooth : Z)
    (preview : bool) (ws : Workspace) :
  sessionInvariant ws ->
  sessionInvariant (autoRemoveEffect trigger img tol smooth preview ws).
Proof.
  intros Hinv.
  pose proof Hinv as
    (display & base & mask & Hd & Hb & Hm & Wd & Wb & Wm & _).
  unfold autoRemoveEffect. rewrite Hb, Hd, Hm.
  destruct (trigger =? 0)%Z; [exact Hinv|].
  destruct Wb as (_ & _ & _ & Hop & Hga). destruct Wm as (_ & Hmw & Hmh & Hmop & Hmga).
  apply renderCanvas_invariant. cbn [clearMask option_map].
  apply sessionInvariant_reset.
  - exact Wd.
  - apply removeBackgroundSmart_canvas.
    apply wfCanvas_mapBitmap; try reflexivity; assumption.
  - apply wfCanvas_mapBitmap; assumption.
Qed.

Lemma Forall_removelast (P : Raster -> Prop) (l : list Raster) :
  Forall P l -> Forall P (removelast l).
Proof.
  induction 1 as [|a l Ha Hl IH]; [constructor|].
  cbn. destruct l; [constructor|]. constructor; assumption.
Qed.

Lemma Forall_last (P : Raster -> Prop) (l : list Raster) (d : Raster) :
  l <> [] -> Forall P l -> P (last l d).
Proof.
  induction l as [|a l IH]; [contradiction|].
  intros _ Hall. inversion Hall as [|? ? Ha Hl]; subst.
  destruct l as [|b l']; [exact Ha|].
  apply IH; [discriminate | exact Hl].
Qed.

Lemma removelast_length (l : list Raster) :
  length (removelast l) = length l - 1.
Proof.
  induction l as [|a l IH]; [reflexivity|].
  cbn [removelast]. destruct l as [|b l']; [reflexivity|].
  cbn [length] in *. lia.
Qed.

Lemma undoEffect_invariant (trigger : Z) (preview : bool) (ws : Workspace) :
  sessionInvariant ws -> sessionInvariant (undoEffect trigger preview ws).
Proof.
  intros Hinv.
  pose proof Hinv as
    (display & base & mask & Hd & Hb & Hm & Wd & Wb & Wm & Hall & Hne & Hlen & Hlast).
  unfold undoEffect. rewrite Hb, Hd, Hm.
  destruct (trigger =? 0)%Z; [exact Hinv|].
  destruct (0 <? length (historyRef ws)); [|exact Hinv].
  destruct (1 <? length (historyRef ws)) eqn:E; [|exact Hinv].
  apply Nat.ltb_lt in E.
  assert (Hpop : removelast (historyRef ws) <> []).
  { intros H. apply (f_equal (@length Raster)) in H.
    rewrite removelast_length in H. cbn in H. lia. }
  pose proof (Forall_removelast _ _ Hall) as Hall'.
  pose proof (Forall_last _ _ (blank 0 0) Hpop Hall') as (Pwf & Pw & Ph).
  destruct Wb as (Hwf & _ & _ & Hop & Hga).
  apply renderCanvas_invariant.
  apply (sessionInvariant_intro (width (bitmap base)) (height (bitmap base)));
    try assumption.
  - apply wfCanvas_mapBitmap; try reflexivity; assumption.
  - rewrite removelast_length. lia.
  - symmetry. apply putImageData_whole; [exact Pwf | now rewrite Pw | now rewrite Ph].
Qed.

Lemma manualApplyEffect_invariant (trigger : Z) (preview : bool) (ws : Workspace) :
  sessionInvariant ws -> sessionInvariant (manualApplyEffect trigger preview ws).
Proof.
  intros Hinv.
  pose proof Hinv as
    (display & base & mask & Hd & Hb & Hm & Wd & Wb & Wm & Hall & Hne & Hlen & Hlast).
  unfold manualApplyEffect. rewrite Hb, Hd, Hm.
  destruct (trigger =? 0)%Z; [exact Hinv|].
  destruct Wb as (Hwf & _ & _ & Hop & Hga).
  destruct Wm as (_ & Hmw & Hmh & Hmop & Hmga).
  apply renderCanvas_invariant.
  set (baseCtx := setCompositeOperation SourceOver
                    (drawImage (bitmap mask)
                       (setCompositeOperation DestinationOut base))).
  assert (Wb' : wfCanvas (width (bitmap base)) (height (bitmap base)) baseCtx).
  { unfold baseCtx, wfCanvas. cbn. repeat split; try assumption.
    apply wfRaster_tabulate. }
  assert (Hsnap : getImageData (width (bitmap baseCtx)) (height (bitmap baseCtx))
                    baseCtx = bitmap baseCtx)
    by (apply getImageData_whole; [apply Wb' | reflexivity | reflexivity]).
  rewrite Hsnap.
  apply (sessionInvariant_intro (width (bitmap base)) (height (bitmap base)));
    try assumption.
  - apply wfCanvas_mapBitmap; assumption.
  - apply pushSnapshot_Forall; [|exact Hall].
    destruct Wb' as (Hwf' & Hw' & Hh' & _). repeat split; assumption.
  - apply pushSnapshot_nonempty.
  - now apply pushSnapshot_length.
  - apply pushSnapshot_last.
Qed.

Lemma drawOnMask_invariant (coverage : nat -> nat -> Z) (preview : bool)
    (ws : Workspace) :
  sessionInvariant ws -> sessionInvariant (drawOnMask coverage preview ws).
Proof.
  intros Hinv.
  pose proof Hinv as
    (display & base & mask & Hd & Hb & Hm & Wd & Wb & Wm & Hall & Hne & Hlen & Hlast).
  unfold drawOnMask. rewrite Hb, Hd, Hm.
  destruct Wm as (_ & Hmw & Hmh & Hmop & Hmga).
  apply renderCanvas_invariant.
  apply (sessionInvariant_intro (width (bitmap base)) (height (bitmap base)));
    try assumption.
  apply wfCanvas_mapBitmap; assumption.
Qed.

Lemma runEffects_invariant (prev : option WorkspaceProps) (p : WorkspaceProps)
    (ws : Workspace) :
  sessionInvariant ws \/ (prev = None /\ displayCanvasRef ws <> None) ->
  sessionInvariant (runEffects prev p ws).
Proof.
  intros H. unfold runEffects. cbn zeta.
  set (ws1 := if changed rasterEqb originalImage prev p
              then initEffect (originalImage p) (manualMaskPreview p) ws else ws).
  assert (H1 : sessionInvariant ws1).
  { unfold ws1. destruct H as [H | [-> Hd]].
    - destruct (changed rasterEqb originalImage prev p); [|exact H].
      apply initEffect_invariant.
      destruct H as (d & _ & _ & Hd & _). rewrite Hd. discriminate.
    - cbn. now apply initEffect_invariant. }
  clearbody ws1. clear H.
  repeat match goal with
         | |- sessionInvariant (if ?b then _ else _) => destruct b
         | |- sessionInvariant (manualApplyEffect _ _ _) =>
             apply manualApplyEffect_invariant
         | |- sessionInvariant (undoEffect _ _ _) => apply undoEffect_invariant
         | |- sessionInvariant (autoRemoveEffect _ _ _ _ _ _) =>
             apply autoRemoveEffect_invariant
         | |- sessionInvariant (aiOverrideEffect _ _ _) =>
             apply aiOverrideEffect_invariant
         | |- sessionInvariant (renderCanvas _ _) => apply renderCanvas_invariant
         end; exact H1.
Qed.

Lemma reachable_invariant (p : WorkspaceProps) (ws : Workspace) :
  reachable p ws -> sessionInvariant ws.
Proof.
  induction 1 as [display p | q p ws _ IH | p coverage ws _ IH].
  - apply runEffects_invariant. right. split; [reflexivity | discriminate].
  - apply runEffects_invariant. left. exact IH.
  - apply drawOnMask_invariant, IH.
Qed.

(** ** Rasters are determined by their pixels *)

Lemma raster_ext (r s : Raster) :
  wfRaster r -> wfRaster s -> width r = width s -> height r = height s ->
  (forall x y, x < width r -> y < height r -> getPixel r x y = getPixel s x y) ->
  r = s.
Proof.
  intros Hr Hs Hw Hh Hpix.
  rewrite <- (tabulate_getPixel r Hr), <- (tabulate_getPixel s Hs).
  rewrite <- Hw, <- Hh. now apply tabulate_ext.
Qed.

Lemma composite_idempotent (preview : bool) (base mask display : Canvas) :
  globalAlpha display = alphaOne ->
  composite preview base mask (composite preview base mask display) =
  composite preview base mask display.
Proof.
  intros Hga.
  set (once := composite preview base mask display).
  destruct (composite_state preview base mask display) as (Hw & Hh & Hwf & Hop & Hga1).
  fold once in Hw, Hh, Hwf, Hop, Hga1.
  assert (Hga' : globalAlpha once = alphaOne)
    by (rewrite Hga1; destruct preview; [exact Hga | reflexivity]).
  destruct (composite_state preview base mask once) as (Hw2 & Hh2 & Hwf2 & Hop2 & Hga2).
  assert (Hbit : bitmap (composite preview base mask once) = bitmap once).
  { apply raster_ext; try assumption.
    intros x y Hx Hy. rewrite Hw2 in Hx. rewrite Hh2 in Hy.
    rewrite composite_pixel by assumption.
    unfold once. rewrite composite_pixel; [reflexivity | exact Hga | |].
    - now rewrite <- Hw.
    - now rewrite <- Hh. }
  destruct (composite preview base mask once) as [b2 o2 g2].
  destruct once as [b1 o1 g1]. cbn in *. subst. f_equal.
  destruct preview; reflexivity.
Qed.

Lemma sourceOver_onto_transparent_alpha (b : Pixel) :
  alpha (sourceOver alphaOne b transparent) = alpha b.
Proof.
  unfold sourceOver, alphaOne. rewrite mul8_full.
  destruct (alpha b =? 0)%Z eqn:E.
  - apply Z.eqb_eq in E. now rewrite E.
  - cbn [alpha transparent]. rewrite mul8_zero_l. lia.
Qed.

Lemma shown_preview_alpha (b m : Pixel) :
  alpha (shown true b m) = mul8 (alpha b) (255 - alpha m).
Proof.
  unfold shown, destinationOut. cbn [alpha].
  rewrite sourceOver_onto_transparent_alpha. unfold alphaOne. now rewrite mul8_full.
Qed.

(** ** Alpha arithmetic that does not depend on the last bit of rounding *)


(** Scaling an alpha by the transparency of a cover never raises it and
    stays within one unit of the exact product. *)
Lemma mul8_scaled_bounds (a s : Z) :
  (0 <= a <= 255)%Z -> (0 <= s <= 255)%Z ->
  (0 <= mul8 a (255 - s) <= a)%Z /\
  (a * (255 - s) - 255 < 255 * mul8 a (255 - s) < a * (255 - s) + 255)%Z.
Proof.
  intros Ha Hs. unfold mul8.
  pose proof (Z.mul_div_le (a * (255 - s) + 127) 255 ltac:(lia)) as Hle.
  pose proof (Z.mul_succ_div_gt (a * (255 - s) + 127) 255 ltac:(lia)) as Hgt.
  repeat split; nia.
Qed.


(** ** The compositor *)

(** C8: the render loop writes the display canvas only: the base layer, the
    mask layer and the history are the same before and after.  Its output
    is a function of its inputs, and on a display context at its default
    global alpha (where the render loop itself always leaves it) rendering
    twice, or any number of times, gives what rendering once gives. *)
Theorem renderCanvas_pure_idempotent (preview : bool) (ws : Workspace) :
  (forall display, displayCanvasRef ws = Some display ->
     globalAlpha display = alphaOne) ->
  baseLayerRef (renderCanvas preview ws) = baseLayerRef ws /\
  maskLayerRef (renderCanvas preview ws) = maskLayerRef ws /\
  historyRef (renderCanvas preview ws) = historyRef ws /\
  renderCanvas preview (renderCanvas preview ws) = renderCanvas preview ws /\
  forall n, Nat.iter (S n) (renderCanvas preview) ws = renderCanvas preview ws.
Proof.
  intros Hga.
  destruct (renderCanvas_frame preview ws) as (Hb & Hm & Hh).
  assert (Hidem : renderCanvas preview (renderCanvas preview ws) =
                  renderCanvas preview ws).
  { unfold renderCanvas at 2 3.
    destruct (displayCanvasRef ws) as [d|] eqn:Ed;
      [destruct (baseLayerRef ws) as [b|] eqn:Eb;
       [destruct (maskLayerRef ws) as [m|] eqn:Em|]|];
      try (unfold renderCanvas; now rewrite Ed, ?Eb, ?Em).
    unfold renderCanvas, setDisplay. cbn. rewrite Eb, Em.
    rewrite composite_idempotent; [reflexivity | now apply Hga]. }
  repeat split; try assumption.
  induction n as [|n IH]; [reflexivity|].
  change (Nat.iter (S (S n)) (renderCanvas preview) ws)
    with (renderCanvas preview (Nat.iter (S n) (renderCanvas preview) ws)).
  rewrite IH. exact Hidem.
Qed.


(** ** Undo *)

Lemma undoEffect_facts (trigger : Z) (preview : bool) (ws : Workspace) :
  trigger <> 0%Z -> sessionInvariant ws ->
  maskLayerRef (undoEffect trigger preview ws) = maskLayerRef ws /\
  (length (historyRef ws) = 1 -> undoEffect trigger preview ws = ws) /\
  (1 < length (historyRef ws) ->
     historyRef (undoEffect trigger preview ws) = removelast (historyRef ws) /\
     currentBase (undoEffect trigger preview ws) =
       last (removelast (historyRef ws)) (blank 0 0)).
Proof.
  intros Ht Hinv.
  pose proof Hinv as
    (display & base & mask & Hd & Hb & Hm & Wd & Wb & Wm & Hall & Hne & Hlen & Hlast).
  apply Z.eqb_neq in Ht.
  unfold undoEffect. rewrite Ht, Hb.
  destruct (0 <? length (historyRef ws)) eqn:E0;
    [| apply Nat.ltb_ge in E0;
       split; [reflexivity | split; intros H; [reflexivity | lia]] ].
  destruct (1 <? length (historyRef ws)) eqn:E1.
  - apply Nat.ltb_lt in E1.
    match goal with |- context [renderCanvas preview ?w] =>
      destruct (renderCanvas_frame preview w) as (Fb & Fm & Fh) end.
    cbn in Fb, Fm, Fh.
    split; [| split; [intros H; lia | intros _; split]].
    + exact Fm.
    + exact Fh.
    + unfold currentBase. rewrite Fb.
      assert (Hpop : removelast (historyRef ws) <> []).
      { intros H. apply (f_equal (@length Raster)) in H.
        rewrite removelast_length in H. cbn in H. lia. }
      pose proof (Forall_last _ _ (blank 0 0) Hpop (Forall_removelast _ _ Hall))
        as (Pwf & Pw & Ph).
      apply putImageData_whole; [exact Pwf | now rewrite Pw | now rewrite Ph].
  - apply Nat.ltb_ge in E1.
    split; [reflexivity | split; intros H; [reflexivity | lia]].
Qed.

(** C7: once triggered, undo with more than one history entry pops the
    topmost snapshot and restores the base layer from the new top; with
    exactly one entry it changes nothing; in either case the mask layer is
    left as it is. *)
Theorem undoEffect_spec (trigger : Z) (preview : bool) (ws : Workspace) :
  trigger <> 0%Z -> sessionInvariant ws ->
  maskLayerRef (undoEffect trigger preview ws) = maskLayerRef ws /\
  (length (historyRef ws) = 1 -> undoEffect trigger preview ws = ws) /\
  (1 < length (historyRef ws) ->
     historyRef (undoEffect trigger preview ws) = removelast (historyRef ws) /\
     currentBase (undoEffect trigger preview ws) =
       last (removelast (historyRef ws)) (blank 0 0)).
Proof. exact (undoEffect_facts trigger preview ws). Qed.

(** ** Committing the mask *)

Lemma manualApplyEffect_facts (trigger : Z) (preview : bool) (ws : Workspace)
    (base mask : Canvas) :
  trigger <> 0%Z -> baseLayerRef ws = Some base -> maskLayerRef ws = Some mask ->
  let baseCtx :=
    setCompositeOperation SourceOver
      (drawImage (bitmap mask) (setCompositeOperation DestinationOut base)) in
  baseLayerRef (manualApplyEffect trigger preview ws) = Some baseCtx /\
  maskLayerRef (manualApplyEffect trigger preview ws) =
    Some (clearRect (width (bitmap mask)) (height (bitmap mask)) mask) /\
  historyRef (manualApplyEffect trigger preview ws) =
    pushSnapshot (bitmap baseCtx) (historyRef ws).
Proof.
  intros Ht Hb Hm baseCtx. apply Z.eqb_neq in Ht.
  unfold manualApplyEffect. rewrite Ht, Hb, Hm. fold baseCtx.
  match goal with |- context [renderCanvas preview ?w] =>
    destruct (renderCanvas_frame preview w) as (Fb & Fm & Fh) end.
  rewrite Fb, Fm, Fh. cbn [baseLayerRef maskLayerRef historyRef].
  repeat split.
  rewrite getImageData_whole; [reflexivity | | reflexivity | reflexivity].
  unfold baseCtx, drawImage, paint, mapBitmap. cbn [bitmap setCompositeOperation].
  apply wfRaster_tabulate.
Qed.

Lemma destinationOut_base_pixel (base mask : Canvas) (x y : nat) :
  globalAlpha base = alphaOne ->
  width (bitmap mask) = width (bitmap base) ->
  height (bitmap mask) = height (bitmap base) ->
  getPixel
    (bitmap (drawImage (bitmap mask) (setCompositeOperation DestinationOut base)))
    x y =
  destinationOut alphaOne (getPixel (bitmap mask) x y) (getPixel (bitmap base) x y).
Proof.
  intros Hga Hw Hh.
  destruct (Nat.lt_ge_cases x (width (bitmap base))) as [Hx|Hx];
    [destruct (Nat.lt_ge_cases y (height (bitmap base))) as [Hy|Hy]|].
  - unfold drawImage. rewrite getPixel_paint by assumption.
    cbn [globalCompositeOperation globalAlpha bitmap setCompositeOperation blend].
    now rewrite Hga.
  - rewrite !getPixel_outside; [reflexivity | right | right | right]; cbn; lia.
  - rewrite !getPixel_outside; [reflexivity | left | left | left]; cbn; lia.
Qed.

(** C1, as the code has it: once triggered, the manual-apply effect draws
    the mask onto the base with 'destination-out': the base alpha becomes 0
    where the mask is fully opaque, the base pixel is untouched where the
    mask has no alpha, and where the mask is partly transparent the base
    alpha is scaled down by the mask's transparency (never above what it
    was, within one unit of the exact product).  It then clears the mask
    and pushes the new base snapshot onto the history, dropping the oldest
    entry when that makes more than 20.  It does not look whether the mask
    is empty: with an empty mask the base pixels stay as they are and the
    snapshot is pushed all the same. *)
Theorem manualApplyEffect_spec (trigger : Z) (preview : bool) (ws : Workspace) :
  trigger <> 0%Z -> sessionInvariant ws ->
  let ws' := manualApplyEffect trigger preview ws in
  (forall x y,
     let b := alpha (getPixel (currentBase ws) x y) in
     let m := alpha (getPixel (currentMask ws) x y) in
     let b' := alpha (getPixel (currentBase ws') x y) in
     (0 <= b <= 255)%Z -> (0 <= m <= 255)%Z ->
     (0 <= b' <= b)%Z /\
     (b * (255 - m) - 255 < 255 * b' < b * (255 - m) + 255)%Z) /\
  (forall x y, alpha (getPixel (currentMask ws) x y) = 255%Z ->
     alpha (getPixel (currentBase ws') x y) = 0%Z) /\
  (forall x y, alpha (getPixel (currentMask ws) x y) = 0%Z ->
     getPixel (currentBase ws') x y = getPixel (currentBase ws) x y) /\
  isEmpty (currentMask ws') /\
  historyRef ws' =
    (if length (historyRef ws) <? historyLimit
     then historyRef ws ++ [currentBase ws']
     else tl (historyRef ws) ++ [currentBase ws']) /\
  (isEmpty (currentMask ws) ->
     currentBase ws' = currentBase ws /\
     historyRef ws' = pushSnapshot (currentBase ws) (historyRef ws) /\
     (length (historyRef ws) < historyLimit ->
        length (historyRef ws') = S (length (historyRef ws)))).
Proof.
  intros Ht Hinv ws'.
  pose proof Hinv as
    (display & base & mask & Hd & Hb & Hm & Wd & Wb & Wm & Hall & Hne & Hlen & Hlast).
  destruct (manualApplyEffect_facts trigger preview ws base mask Ht Hb Hm)
    as (Fb & Fm & Fh).
  fold ws' in Fb, Fm, Fh.
  destruct Wb as (Hwf & _ & _ & Hop & Hga).
  destruct Wm as (Hmwf & Hmw & Hmh & _ & _).
  assert (Hpix : forall x y,
            getPixel (currentBase ws') x y =
            destinationOut alphaOne (getPixel (currentMask ws) x y)
              (getPixel (currentBase ws) x y)).
  { intros x y. unfold currentBase, currentMask. rewrite Fb, Hb, Hm.
    cbn [bitmap setCompositeOperation].
    now apply destinationOut_base_pixel. }
  assert (Hhist : historyRef ws' = pushSnapshot (currentBase ws') (historyRef ws)).
  { rewrite Fh. unfold currentBase. now rewrite Fb. }
  split.
  { intros x y b m b' Hbr Hmr. subst b'. rewrite Hpix.
    unfold destinationOut, alphaOne. cbn [alpha]. rewrite mul8_full.
    now apply mul8_scaled_bounds. }
  split.
  { intros x y Hopaque. rewrite Hpix. unfold destinationOut, alphaOne. cbn [alpha].
    rewrite Hopaque. change (mul8 255 255) with 255%Z.
    change (255 - 255)%Z with 0%Z. apply mul8_zero_r. }
  split.
  { intros x y Hclear. rewrite Hpix.
    change (destinationOut alphaOne) with (blend DestinationOut alphaOne).
    now apply blend_uncovered. }
  split.
  { unfold currentMask. rewrite Fm. cbn [bitmap].
    rewrite clearRect_blank by lia. apply isEmpty_blank. }
  split.
  { rewrite Hhist. apply pushSnapshot_cases. }
  intros Hempty.
  assert (Hsame : currentBase ws' = currentBase ws).
  { unfold currentBase. rewrite Fb, Hb. cbn [bitmap setCompositeOperation].
    unfold currentMask in Hempty. rewrite Hm in Hempty.
    rewrite drawImage_empty; [reflexivity | exact Hwf | exact Hempty]. }
  split; [exact Hsame|]. split.
  - rewrite Hhist. now rewrite Hsame.
  - intros Hroom. rewrite Hhist, pushSnapshot_cases.
    apply Nat.ltb_lt in Hroom. rewrite Hroom, length_app. cbn. lia.
Qed.

(** C6: a commit immediately followed by an undo leaves the base layer
    with exactly the pixels it had before the commit (whatever was painted
    on the mask), and the undo does not touch the mask layer. *)
Theorem commit_then_undo (tApply tUndo : Z) (preview preview' : bool)
    (ws : Workspace) :
  tApply <> 0%Z -> tUndo <> 0%Z -> sessionInvariant ws ->
  let committed := manualApplyEffect tApply preview ws in
  let undone := undoEffect tUndo preview' committed in
  currentBase undone = currentBase ws /\
  maskLayerRef undone = maskLayerRef committed.
Proof.
  intros Ha Hu Hinv committed undone.
  pose proof Hinv as
    (display & base & mask & Hd & Hb & Hm & Wd & Wb & Wm & Hall & Hne & Hlen & Hlast).
  destruct (manualApplyEffect_facts tApply preview ws base mask Ha Hb Hm)
    as (Fb & Fm & Fh).
  fold committed in Fb, Fm, Fh.
  pose proof (manualApplyEffect_invariant tApply preview ws Hinv) as Hinv'.
  fold committed in Hinv'.
  destruct (undoEffect_facts tUndo preview' committed Hu Hinv') as (Um & _ & Upop).
  fold undone in Um, Upop.
  split; [|exact Um].
  destruct (removelast_pushSnapshot
              (bitmap (setCompositeOperation SourceOver
                 (drawImage (bitmap mask) (setCompositeOperation DestinationOut base))))
              (blank 0 0) (historyRef ws) Hne Hlen) as (Hpop & Hprev).
  rewrite <- Fh in Hpop, Hprev.
  assert (Hlong : 1 < length (historyRef committed)).
  { destruct (historyRef committed) as [|a [|b rest]]; cbn in *;
      [contradiction | contradiction | lia]. }
  destruct (Upop Hlong) as (_ & Hrestored).
  rewrite Hrestored, Hprev, Hlast. unfold currentBase. now rewrite Hb.
Qed.

(** ** Replacing the base layer wholesale *)

Lemma clearRect_fresh (c : Canvas) :
  globalAlpha c = alphaOne ->
  clearRect (width (bitmap c)) (height (bitmap c))
    (setCompositeOperation SourceOver c) =
  createCanvas (width (bitmap c)) (height (bitmap c)).
Proof.
  intros Hga.
  pose proof (clearRect_blank (width (bitmap c)) (height (bitmap c))
                (setCompositeOperation SourceOver c)
                (Nat.le_refl _) (Nat.le_refl _)) as Hbit.
  destruct (clearRect _ _ _) as [b o g] eqn:E.
  unfold clearRect, mapBitmap in E. cbn in E. injection E as Eb Eo Eg.
  cbn in Hbit. unfold createCanvas. subst. rewrite Hga.
  f_equal. exact Hbit.
Qed.

(** C2, as the code has it: once triggered, the auto-remove effect clears
    the base canvas, draws the original image on it and runs the
    segmentation with the current tolerance and smoothing on that fresh
    copy: the new base does not depend on the pixels the base held.  The
    mask is cleared.  The history is not pushed onto: it is replaced by the
    single snapshot of the new base. *)
Theorem autoRemoveEffect_spec (trigger : Z) (img : Raster) (tol smooth : Z)
    (preview : bool) (ws : Workspace) :
  trigger <> 0%Z -> sessionInvariant ws ->
  let w := width (currentBase ws) in
  let h := height (currentBase ws) in
  let ws' := autoRemoveEffect trigger img tol smooth preview ws in
  baseLayerRef ws' =
    Some (removeBackgroundSmart (drawImage img (createCanvas w h)) w h tol smooth) /\
  isEmpty (currentMask ws') /\
  historyRef ws' = [currentBase ws'].
Proof.
  intros Ht Hinv w h ws'.
  pose proof Hinv as
    (display & base & mask & Hd & Hb & Hm & Wd & Wb & Wm & Hall & Hne & Hlen & Hlast).
  pose proof (autoRemoveEffect_invariant trigger img tol smooth preview ws Hinv)
    as Hinv'.
  fold ws' in Hinv'.
  apply Z.eqb_neq in Ht.
  unfold ws', autoRemoveEffect in *. rewrite Ht, Hb in *.
  unfold w, h, currentBase. rewrite Hb.
  destruct Wb as (Hwf & _ & _ & Hop & Hga).
  destruct Wm as (Hmwf & Hmw & Hmh & _ & _).
  match goal with |- context [renderCanvas preview ?s] =>
    destruct (renderCanvas_frame preview s) as (Fb & Fm & Fh) end.
  cbn [baseLayerRef maskLayerRef historyRef] in Fb, Fm, Fh.
  unfold currentBase, currentMask. rewrite Fb, Fm, Fh.
  rewrite clearRect_fresh by exact Hga.
  split; [reflexivity|]. split.
  - rewrite Hm. cbn [clearMask option_map]. intros x y.
    rewrite clearRect_pixel; [reflexivity | lia | lia].
  - f_equal. apply getImageData_whole;
      apply (removeBackgroundSmart_canvas _ (width (bitmap base)) (height (bitmap base)));
      apply wfCanvas_mapBitmap; reflexivity.
Qed.

(** C3, as the code has it: when the override decodes, the AI-override
    effect keeps the base canvas at the size it has and draws the incoming
    image scaled into it, whatever the image's own size; it clears the mask
    and resets the history to the single snapshot of the new base. *)
Theorem aiOverrideEffect_spec (url : string) (img : Raster) (preview : bool)
    (ws : Workspace) :
  truthy (Some url) = true -> decodeImage url = Some img -> sessionInvariant ws ->
  let w := width (currentBase ws) in
  let h := height (currentBase ws) in
  let ws' := aiOverrideEffect (Some url) preview ws in
  width (currentBase ws') = w /\
  height (currentBase ws') = h /\
  (forall x y, x < w -> y < h ->
     getPixel (currentBase ws') x y =
     sourceOver alphaOne (sample img w h x y) transparent) /\
  isEmpty (currentMask ws') /\
  historyRef ws' = [currentBase ws'].
Proof.
  intros Htruthy Hdec Hinv w h ws'.
  pose proof Hinv as
    (display & base & mask & Hd & Hb & Hm & Wd & Wb & Wm & Hall & Hne & Hlen & Hlast).
  unfold ws', aiOverrideEffect. rewrite Hb, Htruthy, Hdec.
  unfold w, h, currentBase. rewrite Hb.
  destruct Wb as (Hwf & _ & _ & Hop & Hga).
  destruct Wm as (Hmwf & Hmw & Hmh & _ & _).
  match goal with |- context [renderCanvas preview ?s] =>
    destruct (renderCanvas_frame preview s) as (Fb & Fm & Fh) end.
  cbn [baseLayerRef maskLayerRef historyRef] in Fb, Fm, Fh.
  unfold currentBase, currentMask. rewrite Fb, Fm, Fh.
  split; [reflexivity|]. split; [reflexivity|]. split; [|split].
  - intros x y Hx Hy. unfold drawImageScaled.
    rewrite getPixel_paint by assumption.
    rewrite getPixel_clearRect by assumption.
    unfold clearRect, mapBitmap. cbn [globalCompositeOperation globalAlpha].
    rewrite Hop, Hga. apply Nat.ltb_lt in Hx, Hy. rewrite Hx, Hy, ?Hb. reflexivity.
  - rewrite Hm. cbn [clearMask option_map]. intros x y.
    rewrite clearRect_pixel; [reflexivity | lia | lia].
  - f_equal. apply getImageData_whole; try reflexivity.
    unfold drawImageScaled, paint, mapBitmap. cbn [bitmap]. apply wfRaster_tabulate.
Qed.

(** ** Trigger counters *)

(** C10, as the code has it: each of the three effects returns at once
    when its trigger is 0, the value on mount, and then changes neither the
    base layer, nor the mask layer, nor the history, nor anything else of
    the workspace.  The guard is [trigger === 0], not [trigger > 0]: with
    any other trigger, a negative one included, the effect runs on a loaded
    session: auto-segmentation replaces the base by the segmented original
    and leaves a history of one, undo pops a history of more than one
    entry, and the commit pushes a snapshot. *)
Theorem effects_guard_on_zero_trigger (trigger : Z) (img : Raster) (tol smooth : Z)
    (preview : bool) (ws : Workspace) :
  sessionInvariant ws ->
  (trigger = 0%Z ->
     autoRemoveEffect trigger img tol smooth preview ws = ws /\
     undoEffect trigger preview ws = ws /\
     manualApplyEffect trigger preview ws = ws) /\
  (trigger <> 0%Z ->
     let w := width (currentBase ws) in
     let h := height (currentBase ws) in
     (baseLayerRef (autoRemoveEffect trigger img tol smooth preview ws) =
        Some (removeBackgroundSmart (drawImage img (createCanvas w h)) w h tol smooth) /\
      length (historyRef (autoRemoveEffect trigger img tol smooth preview ws)) = 1) /\
     (1 < length (historyRef ws) ->
        historyRef (undoEffect trigger preview ws) = removelast (historyRef ws)) /\
     historyRef (manualApplyEffect trigger preview ws) =
       pushSnapshot (currentBase (manualApplyEffect trigger preview ws))
         (historyRef ws)).
Proof.
  intros Hinv. split.
  - intros ->. repeat split.
  - intros Ht w h.
    pose proof Hinv as
      (display & base & mask & Hd & Hb & Hm & Wd & Wb & Wm & _).
    split; [split|split].
    + destruct Wb as (_ & _ & _ & _ & Hga).
      pose proof Ht as Ht'. apply Z.eqb_neq in Ht'.
      unfold autoRemoveEffect. rewrite Ht', Hb.
      match goal with |- context [renderCanvas preview ?s] =>
        destruct (renderCanvas_frame preview s) as (Fb & _ & _) end.
      rewrite Fb. cbn [baseLayerRef]. unfold w, h, currentBase. rewrite Hb.
      now rewrite clearRect_fresh by exact Hga.
    + unfold autoRemoveEffect.
      pose proof Ht as Ht'. apply Z.eqb_neq in Ht'. rewrite Ht', Hb.
      match goal with |- context [renderCanvas preview ?s] =>
        destruct (renderCanvas_frame preview s) as (_ & _ & Fh) end.
      now rewrite Fh.
    + intros Hlong.
      destruct (undoEffect_facts trigger preview ws Ht Hinv) as (_ & _ & Upop).
      exact (proj1 (Upop Hlong)).
    + destruct (manualApplyEffect_facts trigger preview ws base mask Ht Hb Hm)
        as (Fb & _ & Fh).
      rewrite Fh. unfold currentBase. now rewrite Fb.
Qed.

(** ** The history is a bounded queue *)

Lemma pushSnapshot_keepLast (snap : Raster) (history : list Raster) :
  length history <= historyLimit ->
  pushSnapshot snap history = keepLast historyLimit (history ++ [snap]).
Proof.
  intros Hlen. rewrite pushSnapshot_cases. unfold keepLast.
  rewrite length_app. cbn [length].
  destruct (length history <? historyLimit) eqn:E.
  - apply Nat.ltb_lt in E.
    replace (length history + 1 - historyLimit) with 0 by lia. reflexivity.
  - apply Nat.ltb_ge in E.
    replace (length history + 1 - historyLimit) with 1 by lia.
    destruct history; [cbn in E; unfold historyLimit in E; lia | reflexivity].
Qed.

Lemma keepLast_snoc (k : nat) (l : list Raster) (x : Raster) :
  keepLast k (keepLast k l ++ [x]) = keepLast k (l ++ [x]).
Proof.
  unfold keepLast.
  assert (Hin : skipn (length l - k) l ++ [x] = skipn (length l - k) (l ++ [x])).
  { rewrite skipn_app.
    replace (length l - k - length l) with 0 by lia. reflexivity. }
  rewrite Hin, skipn_skipn, length_skipn, !length_app. cbn [length].
  f_equal. lia.
Qed.

Lemma keepLast_short (k : nat) (l : list Raster) :
  length l <= k -> keepLast k l = l.
Proof.
  intros H. unfold keepLast. replace (length l - k) with 0 by lia. reflexivity.
Qed.

Lemma commits_invariant (n : nat) (strokes : nat -> nat -> nat -> Z)
    (preview : bool) (ws : Workspace) :
  sessionInvariant ws -> sessionInvariant (commits n strokes preview ws).
Proof.
  intros Hinv. induction n as [|n IH]; [exact Hinv|].
  cbn [commits]. apply manualApplyEffect_invariant, drawOnMask_invariant, IH.
Qed.

Lemma drawOnMask_history (coverage : nat -> nat -> Z) (preview : bool)
    (ws : Workspace) :
  historyRef (drawOnMask coverage preview ws) = historyRef ws.
Proof.
  unfold drawOnMask. destruct (maskLayerRef ws); [|reflexivity].
  match goal with |- context [renderCanvas preview ?s] =>
    destruct (renderCanvas_frame preview s) as (_ & _ & Fh) end.
  exact Fh.
Qed.

Lemma commits_step_history (n : nat) (strokes : nat -> nat -> nat -> Z)
    (preview : bool) (ws : Workspace) :
  sessionInvariant ws ->
  historyRef (commits (S n) strokes preview ws) =
  pushSnapshot (currentBase (commits (S n) strokes preview ws))
    (historyRef (commits n strokes preview ws)).
Proof.
  intros Hinv.
  pose proof (drawOnMask_invariant (strokes n) preview _
                (commits_invariant n strokes preview ws Hinv))
    as (display & base & mask & Hd & Hb & Hm & _).
  assert (Ht : Z.of_nat (S n) <> 0%Z) by lia.
  destruct (manualApplyEffect_facts _ preview _ base mask Ht Hb Hm) as (Fb & _ & Fh).
  cbn [commits]. rewrite Fh. unfold currentBase. rewrite Fb.
  now rewrite drawOnMask_history.
Qed.

Lemma commits_history (n : nat) (strokes : nat -> nat -> nat -> Z)
    (preview : bool) (ws : Workspace) :
  sessionInvariant ws ->
  historyRef (commits n strokes preview ws) =
  keepLast historyLimit
    (historyRef ws ++
     map (fun k => currentBase (commits k strokes preview ws)) (seq 1 n)).
Proof.
  intros Hinv.
  induction n as [|n IH].
  - cbn [seq map commits]. rewrite app_nil_r. symmetry. apply keepLast_short.
    destruct Hinv as (d & b & m & _ & _ & _ & _ & _ & _ & _ & _ & Hlen & _).
    exact Hlen.
  - rewrite commits_step_history by exact Hinv.
    rewrite pushSnapshot_keepLast.
    + rewrite IH, keepLast_snoc, seq_S, map_app, app_assoc. reflexivity.
    + pose proof (commits_invariant n strokes preview ws Hinv)
        as (d & b & m & _ & _ & _ & _ & _ & _ & _ & _ & Hlen & _).
      exact Hlen.
Qed.

(** C5: in every reachable session the history holds between 1 and 20
    snapshots and its last element is the current (most recently
    committed) base layer; a push onto a full history drops the oldest
    entry and keeps the new one last; and 25 commits in a row leave exactly
    the snapshots of the 20 most recent ones (the 6th to the 25th), in
    order. *)
Theorem history_bounded_fifo (p : WorkspaceProps) (ws : Workspace) :
  reachable p ws ->
  1 <= length (historyRef ws) <= 20 /\
  last (historyRef ws) (blank 0 0) = currentBase ws /\
  (forall snap, length (historyRef ws) = 20 ->
     pushSnapshot snap (historyRef ws) = tl (historyRef ws) ++ [snap]) /\
  (forall strokes preview,
     historyRef (commits 25 strokes preview ws) =
     map (fun k => currentBase (commits k strokes preview ws)) (seq 6 20)).
Proof.
  intros Hreach.
  pose proof (reachable_invariant p ws Hreach) as Hinv.
  pose proof Hinv as
    (display & base & mask & Hd & Hb & Hm & Wd & Wb & Wm & Hall & Hne & Hlen & Hlast).
  unfold historyLimit in Hlen.
  split; [|split; [|split]].
  - split; [|exact Hlen]. destruct (historyRef ws); [contradiction | cbn; lia].
  - unfold currentBase. now rewrite Hb.
  - intros snap Hfull. rewrite pushSnapshot_cases, Hfull. reflexivity.
  - intros strokes preview. rewrite commits_history by exact Hinv.
    unfold keepLast. rewrite length_app, length_map, length_seq.
    unfold historyLimit.
    replace (length (historyRef ws) + 25 - 20) with (length (historyRef ws) + 5) by lia.
    rewrite skipn_app.
    replace (length (historyRef ws) + 5 - length (historyRef ws)) with 5 by lia.
    rewrite skipn_all2 by lia. reflexivity.
Qed.

(** ** The AI collaborator and its failures *)

Lemma firstInlineImage_none (ps : list GeminiService.Part) :
  GeminiService.firstInlineImage ps = None <->
  forallb (fun part => negb (GeminiService.hasPayload part)) ps = true.
Proof.
  induction ps as [|part rest IH]; [cbn; tauto|].
  cbn [GeminiService.firstInlineImage forallb]. unfold GeminiService.hasPayload.
  destruct (GeminiService.inlineData part) as [blob|]; [|cbn; exact IH].
  destruct (GeminiService.data blob) as [payload|]; [|cbn; exact IH].
  destruct (truthy (Some payload)); cbn; [|exact IH].
  split; discriminate.
Qed.

Lemma removeBackgroundWithAi_null
    (generateContent : string -> Completion GeminiService.GenerateContentResponse)
    (base64Image : string) (response : GeminiService.GenerateContentResponse) :
  generateContent (GeminiService.cleanBase64 base64Image) = Resolved response ->
  (GeminiService.removeBackgroundWithAi generateContent base64Image = Resolved None
   <-> GeminiService.noPayload response = true).
Proof.
  intros Hresp. unfold GeminiService.removeBackgroundWithAi, GeminiService.noPayload.
  rewrite Hresp.
  destruct (GeminiService.responseParts response) as [ps|]; [|tauto].
  rewrite <- firstInlineImage_none.
  destruct (GeminiService.firstInlineImage ps); split; congruence.
Qed.

Lemma rasterEqb_refl (r : Raster) : rasterEqb r r = true.
Proof. unfold rasterEqb. destruct (Raster_eq_dec r r); congruence. Qed.

Lemma optionStringEqb_refl (o : option string) : optionStringEqb o o = true.
Proof. destruct o; [apply String.eqb_refl | reflexivity]. Qed.

(** A re-render with the same props runs no effect. *)
Lemma runEffects_same_props (p : WorkspaceProps) (ws : Workspace) :
  runEffects (Some p) p ws = ws.
Proof.
  unfold runEffects, changed.
  now rewrite rasterEqb_refl, Bool.eqb_reflx, optionStringEqb_refl, !Z.eqb_refl.
Qed.

(** C9: the AI call either yields a replacement image (a data URL built
    from the first part that carries a payload), or fails: it rethrows
    when the service throws and returns null when the response has no
    image payload.  On either failure [handleAiRemove] leaves the override
    prop as it was, so the workspace is re-rendered with the props it had,
    no effect runs, and the base layer, the mask layer and the history
    (the whole workspace) stay as they were. *)
Theorem ai_failure_keeps_session
    (generateContent : string -> Completion GeminiService.GenerateContentResponse)
    (st : App.State) (img : App.Image) (triggerUndo triggerManualApply : Z)
    (preview : bool) (ws : Workspace) :
  App.originalImage st = Some img ->
  let outcome := generateContent (GeminiService.cleanBase64 (App.src img)) in
  let result := GeminiService.removeBackgroundWithAi generateContent (App.src img) in
  let st' := App.handleAiRemove generateContent st in
  let props := App.workspaceProps st triggerUndo triggerManualApply preview in
  let props' := App.workspaceProps st' triggerUndo triggerManualApply preview in
  (forall error, outcome = Rejected error -> result = Rejected error) /\
  (forall response, outcome = Resolved response ->
     (GeminiService.noPayload response = true -> result = Resolved None) /\
     (GeminiService.noPayload response = false ->
        exists url, result = Resolved (Some url))) /\
  ((forall url, result <> Resolved (Some url)) ->
     App.processedImageOverride st' = App.processedImageOverride st /\
     props' = props /\
     exists p, props = Some p /\ props' = Some p /\
       runEffects (Some p) p ws = ws).
Proof.
  intros Himg outcome result st' props props'.
  split; [|split].
  - intros error Hout. unfold result, GeminiService.removeBackgroundWithAi.
    fold outcome. now rewrite Hout.
  - intros response Hout.
    pose proof (removeBackgroundWithAi_null generateContent (App.src img) response Hout)
      as Hnull.
    fold result in Hnull. split.
    + apply Hnull.
    + intros Hsome. unfold result, GeminiService.removeBackgroundWithAi in *.
      fold outcome in Hnull |- *. rewrite Hout in *.
      destruct (GeminiService.responseParts response) as [ps|] eqn:Eps.
      * destruct (GeminiService.firstInlineImage ps) as [url|].
        -- now exists url.
        -- destruct Hnull as [Hnull _]. rewrite Hnull in Hsome by reflexivity.
           discriminate.
      * destruct Hnull as [Hnull _]. rewrite Hnull in Hsome by reflexivity.
        discriminate.
  - intros Hfail.
    assert (Hover : App.processedImageOverride st' = App.processedImageOverride st).
    { unfold st', App.handleAiRemove. rewrite Himg. fold result.
      destruct result as [[url|]|error] eqn:Eres; cbn; try reflexivity.
      exfalso. now apply (Hfail url). }
    assert (Hprops : props' = props).
    { unfold props', props, App.workspaceProps.
      rewrite Hover.
      unfold st', App.handleAiRemove. rewrite Himg. fold result.
      destruct result as [[[|a url]|]|error]; cbn; rewrite ?Himg; reflexivity. }
    split; [exact Hover|]. split; [exact Hprops|].
    rewrite Hprops. unfold props, App.workspaceProps. rewrite Himg.
    eexists. split; [reflexivity|]. split; [reflexivity|].
    apply runEffects_same_props.
Qed.

(** * Further properties of the component *)

(** ** Loading an image *)

Lemma sourceOver_onto_transparent (p : Pixel) :
  (0 <= alpha p)%Z ->
  sourceOver alphaOne p transparent =
  if (alpha p =? 0)%Z then transparent else p.
Proof.
  intros Hp. unfold sourceOver, alphaOne. rewrite mul8_full.
  destruct (alpha p =? 0)%Z eqn:E; [reflexivity|].
  apply Z.eqb_neq in E. cbn [alpha red green blue transparent].
  rewrite mul8_zero_l, Z.add_0_r. unfold mixChannel.
  rewrite !Z.mul_0_l, !Z.add_0_r.
  assert (Hhalf : (alpha p / 2 / alpha p = 0)%Z).
  { apply Z.div_small. split; [apply Z.div_pos; lia|].
    apply Z.div_lt_upper_bound; lia. }
  rewrite !Z.div_add_l by exact E. rewrite Hhalf, !Z.add_0_r.
  destruct p; reflexivity.
Qed.

Lemma initEffect_refs (img : Raster) (preview : bool) (ws : Workspace) :
  displayCanvasRef ws <> None ->
  baseLayerRef (initEffect img preview ws) =
    Some (drawImage img (createCanvas (width img) (height img))) /\
  maskLayerRef (initEffect img preview ws) =
    Some (createCanvas (width img) (height img)) /\
  historyRef (initEffect img preview ws) =
    [getImageData (width img) (height img)
       (drawImage img (createCanvas (width img) (height img)))].
Proof.
  intros Hd. unfold initEffect.
  destruct (displayCanvasRef ws) as [d|]; [|contradiction].
  match goal with |- context [renderCanvas preview ?s] =>
    destruct (renderCanvas_frame preview s) as (Fb & Fm & Fh) end.
  rewrite Fb, Fm, Fh. repeat split.
Qed.

Lemma loaded_pixel (img : Raster) (x y : nat) :
  getPixel (bitmap (drawImage img (createCanvas (width img) (height img)))) x y =
  sourceOver alphaOne (getPixel img x y) transparent.
Proof.
  destruct (Nat.lt_ge_cases x (width img)) as [Hx|Hx];
    [destruct (Nat.lt_ge_cases y (height img)) as [Hy|Hy]|].
  - unfold drawImage. rewrite getPixel_paint by exact Hx || exact Hy.
    cbn [globalCompositeOperation globalAlpha createCanvas bitmap blend].
    unfold blank. now rewrite getPixel_tabulate.
  - rewrite !getPixel_outside; [reflexivity | right | right]; cbn; lia.
  - rewrite !getPixel_outside; [reflexivity | left | left]; cbn; lia.
Qed.

(** X1: Loading an image of positive width and height discards whatever the
    refs held: the base layer gets the size of the image, the alpha of each
    of its pixels, and the whole pixel where the image is opaque (a pixel
    without alpha becomes transparent black); the mask is empty, the
    history is the single snapshot of the base, and the result does not
    depend on the previous session. *)
Theorem initEffect_loads (img : Raster) (preview : bool) (ws : Workspace) :
  displayCanvasRef ws <> None -> 0 < width img -> 0 < height img ->
  let ws' := initEffect img preview ws in
  width (currentBase ws') = width img /\
  height (currentBase ws') = height img /\
  (forall x y, alpha (getPixel img x y) = 255%Z ->
     getPixel (currentBase ws') x y = getPixel img x y) /\
  (forall x y, (0 <= alpha (getPixel img x y))%Z ->
     alpha (getPixel (currentBase ws') x y) = alpha (getPixel img x y)) /\
  (forall x y, alpha (getPixel img x y) = 0%Z ->
     getPixel (currentBase ws') x y = transparent) /\
  isEmpty (currentMask ws') /\
  historyRef ws' = [currentBase ws'] /\
  (forall other, displayCanvasRef other <> None ->
     initEffect img preview other = ws').
Proof.
  intros Hd _ _ ws'.
  destruct (initEffect_refs img preview ws Hd) as (Fb & Fm & Fh).
  fold ws' in Fb, Fm, Fh.
  unfold currentBase, currentMask. rewrite Fb, Fm, Fh.
  split; [reflexivity|]. split; [reflexivity|].
  split; [|split; [|split; [|split; [|split]]]].
  - intros x y Ha. rewrite loaded_pixel, sourceOver_onto_transparent by lia.
    now rewrite Ha.
  - intros x y Ha. rewrite loaded_pixel. apply sourceOver_onto_transparent_alpha.
  - intros x y Ha. rewrite loaded_pixel, sourceOver_onto_transparent by lia.
    now rewrite Ha.
  - apply isEmpty_blank.
  - f_equal. apply getImageData_whole; try reflexivity.
    unfold drawImage, paint, mapBitmap. cbn [bitmap]. apply wfRaster_tabulate.
  - intros other Ho. unfold ws', initEffect.
    destruct (displayCanvasRef other); [|contradiction].
    destruct (displayCanvasRef ws); [reflexivity | contradiction].
Qed.

(** ** Brush stamps *)

Lemma drawOnMask_refs (coverage : nat -> nat -> Z) (preview : bool)
    (ws : Workspace) (mask : Canvas) :
  maskLayerRef ws = Some mask ->
  baseLayerRef (drawOnMask coverage preview ws) = baseLayerRef ws /\
  maskLayerRef (drawOnMask coverage preview ws) =
    Some (paint (fun x y => markerRed (coverage x y)) mask) /\
  historyRef (drawOnMask coverage preview ws) = historyRef ws.
Proof.
  intros Hm. unfold drawOnMask. rewrite Hm.
  match goal with |- context [renderCanvas preview ?s] =>
    destruct (renderCanvas_frame preview s) as (Fb & Fm & Fh) end.
  rewrite Fb, Fm, Fh. repeat split.
Qed.

Lemma mul8_complement_bounds (a s : Z) :
  (0 <= a <= 255)%Z -> (0 <= s <= 255)%Z ->
  (a - s <= mul8 a (255 - s) <= 255 - s)%Z.
Proof.
  intros Ha Hs. unfold mul8. split.
  - apply Z.div_le_lower_bound; [lia | nia].
  - apply Z.lt_succ_r, Z.div_lt_upper_bound; [lia | nia].
Qed.

(** X2: A brush stamp writes the mask only: the base layer and the history are
    as before.  On the mask it paints marker red source-over: a pixel the
    stamp does not cover is unchanged, a pixel it covers fully becomes
    opaque marker red whatever it was, and in between the alpha of the mask
    pixel never goes down and never exceeds 255. *)
Theorem drawOnMask_paints (coverage : nat -> nat -> Z) (preview : bool)
    (ws : Workspace) :
  sessionInvariant ws ->
  let ws' := drawOnMask coverage preview ws in
  baseLayerRef ws' = baseLayerRef ws /\
  historyRef ws' = historyRef ws /\
  forall x y, x < width (currentMask ws) -> y < height (currentMask ws) ->
    let m := getPixel (currentMask ws) x y in
    let m' := getPixel (currentMask ws') x y in
    (coverage x y = 0%Z -> m' = m) /\
    (coverage x y = 255%Z -> m' = markerRed 255) /\
    ((0 <= coverage x y <= 255)%Z -> (0 <= alpha m <= 255)%Z ->
       (alpha m <= alpha m' <= 255)%Z).
Proof.
  intros Hinv ws'.
  pose proof Hinv as
    (display & base & mask & Hd & Hb & Hm & Wd & Wb & Wm & _).
  destruct (drawOnMask_refs coverage preview ws mask Hm) as (Fb & Fm & Fh).
  fold ws' in Fb, Fm, Fh.
  split; [exact Fb|]. split; [exact Fh|].
  destruct Wm as (_ & _ & _ & Hop & Hga).
  intros x y Hx Hy m m'. subst m m'.
  unfold currentMask in *. rewrite Fm. rewrite Hm in *. cbn [bitmap].
  set (m := getPixel (bitmap mask) x y).
  set (m' := getPixel (bitmap (paint (fun x y => markerRed (coverage x y)) mask)) x y).
  assert (Hpix : m' = sourceOver alphaOne (markerRed (coverage x y)) m).
  { unfold m'. rewrite getPixel_paint by assumption. now rewrite Hop, Hga. }
  split; [|split].
  - intros Hc. rewrite Hpix, Hc. reflexivity.
  - intros Hc. rewrite Hpix, Hc.
    unfold sourceOver, alphaOne, markerRed, mixChannel. cbn [alpha red green blue].
    change (mul8 255 255) with 255%Z. change (255 =? 0)%Z with false. cbv iota.
    change (255 - 255)%Z with 0%Z. rewrite mul8_zero_r, !Z.mul_0_r. reflexivity.
  - intros Hc Hm0. rewrite Hpix. unfold sourceOver, alphaOne. cbn [alpha markerRed].
    rewrite mul8_full.
    destruct (coverage x y =? 0)%Z; [lia|]. cbn [alpha].
    pose proof (mul8_complement_bounds (alpha m) (coverage x y) Hm0 Hc). lia.
Qed.

Lemma stamp_on_clean_alpha (c : Z) (m : Pixel) :
  alpha m = 0%Z -> alpha (sourceOver alphaOne (markerRed c) m) = c.
Proof.
  intros Hm. unfold sourceOver, alphaOne. cbn [alpha markerRed].
  rewrite mul8_full. destruct (c =? 0)%Z eqn:E.
  - apply Z.eqb_eq in E. lia.
  - cbn [alpha]. rewrite Hm, mul8_zero_l. lia.
Qed.

(** X3: One stamp on a clean mask followed by a commit: the mask is empty
    again; a base pixel the stamp covers fully ends with alpha 0, a pixel
    the stamp does not reach is untouched, and in between the alpha is
    scaled by what the stamp left uncovered (never above what it was,
    within one unit of the exact product). *)
Theorem stroke_then_commit (coverage : nat -> nat -> Z) (trigger : Z)
    (preview : bool) (ws : Workspace) :
  trigger <> 0%Z -> sessionInvariant ws -> isEmpty (currentMask ws) ->
  let ws' := manualApplyEffect trigger preview (drawOnMask coverage preview ws) in
  isEmpty (currentMask ws') /\
  forall x y, x < width (currentBase ws) -> y < height (currentBase ws) ->
    let b := getPixel (currentBase ws) x y in
    let b' := getPixel (currentBase ws') x y in
    (coverage x y = 255%Z -> alpha b' = 0%Z) /\
    (coverage x y = 0%Z -> b' = b) /\
    ((0 <= alpha b <= 255)%Z -> (0 <= coverage x y <= 255)%Z ->
       (0 <= alpha b' <= alpha b)%Z /\
       (alpha b * (255 - coverage x y) - 255 < 255 * alpha b'
          < alpha b * (255 - coverage x y) + 255)%Z).
Proof.
  intros Ht Hinv Hclean ws'.
  pose proof Hinv as
    (display & base & mask & Hd & Hb & Hm & Wd & Wb & Wm & _).
  destruct (drawOnMask_refs coverage preview ws mask Hm) as (Sb & Sm & Sh).
  rewrite Hb in Sb.
  destruct (manualApplyEffect_facts trigger preview _ base _ Ht Sb Sm)
    as (Fb & Fm & Fh).
  fold ws' in Fb, Fm, Fh.
  destruct Wb as (Hwf & _ & _ & Hop & Hga).
  destruct Wm as (Hmwf & Hmw & Hmh & Hmop & Hmga).
  unfold currentMask in Hclean. rewrite Hm in Hclean.
  split.
  - unfold currentMask. rewrite Fm. cbn [bitmap].
    rewrite clearRect_blank by lia. apply isEmpty_blank.
  - intros x y Hx Hy b b'. subst b b'.
    unfold currentBase in *. rewrite Fb. rewrite Hb in *.
    cbn [bitmap setCompositeOperation].
    set (b := getPixel (bitmap base) x y).
    assert (Hpix : getPixel
                     (bitmap
                        (drawImage
                           (bitmap (paint (fun x y => markerRed (coverage x y)) mask))
                           (setCompositeOperation DestinationOut base))) x y =
                   mkPixel (red b) (green b) (blue b)
                     (mul8 (alpha b) (255 - coverage x y))).
    { rewrite destinationOut_base_pixel; [| exact Hga | exact Hmw | exact Hmh].
      rewrite getPixel_paint by (rewrite ?Hmw, ?Hmh; assumption).
      rewrite Hmop, Hmga. cbn [blend]. unfold destinationOut.
      rewrite stamp_on_clean_alpha by apply Hclean.
      unfold alphaOne. now rewrite mul8_full. }
    split; [|split].
    + intros Hc. rewrite Hpix, Hc. cbn [alpha]. apply mul8_zero_r.
    + intros Hc. rewrite Hpix, Hc. change (255 - 0)%Z with 255%Z.
      rewrite mul8_full. unfold b. now destruct (getPixel (bitmap base) x y).
    + intros Hbr Hcr. rewrite Hpix. cbn [alpha]. now apply mul8_scaled_bounds.
Qed.

(** X4: What preview mode shows is what a commit leaves: at every pixel the
    alpha on the display in preview mode is the alpha the base layer has
    after the manual-apply effect, and the whole pixel agrees wherever the
    base pixel is not fully transparent. *)
Theorem preview_shows_commit (trigger : Z) (preview : bool) (ws : Workspace) :
  trigger <> 0%Z -> sessionInvariant ws ->
  forall x y,
    let shownPixel := getPixel (currentDisplay (renderCanvas true ws)) x y in
    let committed :=
      getPixel (currentBase (manualApplyEffect trigger preview ws)) x y in
    alpha shownPixel = alpha committed /\
    ((0 < alpha (getPixel (currentBase ws) x y))%Z -> shownPixel = committed).
Proof.
  intros Ht Hinv x y.
  pose proof Hinv as
    (display & base & mask & Hd & Hb & Hm & Wd & Wb & Wm & _).
  destruct (manualApplyEffect_facts trigger preview ws base mask Ht Hb Hm)
    as (Fb & _ & _).
  destruct Wb as (Hwf & _ & _ & Hop & Hga).
  destruct Wm as (Hmwf & Hmw & Hmh & _ & _).
  destruct Wd as (Hdwf & Hdw & Hdh & _ & Hdga).
  unfold currentDisplay, currentBase, renderCanvas. rewrite Fb, Hd, Hb, Hm.
  cbn [displayCanvasRef setDisplay bitmap setCompositeOperation].
  rewrite destinationOut_base_pixel by assumption.
  destruct (Nat.lt_ge_cases x (width (bitmap base))) as [Hx|Hx];
    [destruct (Nat.lt_ge_cases y (height (bitmap base))) as [Hy|Hy]|].
  - rewrite composite_pixel by (rewrite ?Hdw, ?Hdh; assumption).
    split.
    + rewrite shown_preview_alpha. unfold destinationOut, alphaOne. cbn [alpha].
      now rewrite mul8_full.
    + intros Ha. unfold shown.
      rewrite sourceOver_onto_transparent by lia.
      destruct (alpha (getPixel (bitmap base) x y) =? 0)%Z eqn:E; [|reflexivity].
      apply Z.eqb_eq in E. lia.
  - destruct (composite_state true base mask display) as (Cw & Ch & _).
    rewrite !getPixel_outside by (right; lia || (rewrite Ch; lia)).
    split; [reflexivity | intros Ha; cbn in Ha; lia].
  - destruct (composite_state true base mask display) as (Cw & Ch & _).
    rewrite !getPixel_outside by (left; lia || (rewrite Cw; lia)).
    split; [reflexivity | intros Ha; cbn in Ha; lia].
Qed.

(** ** Pointer events *)

Lemma drawOnMask_frame (coverage : nat -> nat -> Z) (preview : bool)
    (ws : Workspace) :
  baseLayerRef (drawOnMask coverage preview ws) = baseLayerRef ws /\
  historyRef (drawOnMask coverage preview ws) = historyRef ws.
Proof.
  split; [|apply drawOnMask_history].
  unfold drawOnMask. destruct (maskLayerRef ws); [|reflexivity].
  match goal with |- context [renderCanvas preview ?s] =>
    destruct (renderCanvas_frame preview s) as (Fb & _ & _) end.
  exact Fb.
Qed.

Lemma handlePointer_frame (preview : bool) (s : PointerState * Workspace)
    (ev : PointerEvent) :
  baseLayerRef (snd (handlePointer preview s ev)) = baseLayerRef (snd s) /\
  historyRef (snd (handlePointer preview s ev)) = historyRef (snd s).
Proof.
  destruct s as [ptr ws]. destruct ev as [stamp|stamp| | |]; cbn [handlePointer snd];
    try (split; reflexivity).
  - apply drawOnMask_frame.
  - destruct (isDrawing ptr); cbn [snd]; [apply drawOnMask_frame | split; reflexivity].
Qed.

(** X5: Whatever the pointer does on the canvas, in whatever order, the base
    layer and the history stay as they are: strokes are provisional until
    the mask is committed. *)
Theorem pointer_events_provisional (preview : bool) (events : list PointerEvent)
    (s : PointerState * Workspace) :
  baseLayerRef (snd (pointerRun preview events s)) = baseLayerRef (snd s) /\
  historyRef (snd (pointerRun preview events s)) = historyRef (snd s).
Proof.
  revert s. induction events as [|ev events IH]; intros s; [split; reflexivity|].
  cbn [pointerRun fold_left]. fold (pointerRun preview events (handlePointer preview s ev)).
  destruct (IH (handlePointer preview s ev)) as (Hb & Hh).
  destruct (handlePointer_frame preview s ev) as (Hb' & Hh').
  split; congruence.
Qed.

Lemma pointerRun_idle (preview : bool) (events : list PointerEvent)
    (s : PointerState * Workspace) :
  isDrawing (fst s) = false ->
  forallb (fun ev => negb (isMouseDown ev)) events = true ->
  snd (pointerRun preview events s) = snd s.
Proof.
  revert s. induction events as [|ev events IH]; intros [ptr ws] Hidle Hno;
    [reflexivity|].
  cbn [forallb] in Hno. apply andb_true_iff in Hno as [Hev Hno].
  cbn [pointerRun fold_left].
  fold (pointerRun preview events (handlePointer preview (ptr, ws) ev)).
  cbn [fst] in Hidle.
  destruct ev as [stamp|stamp| | |]; cbn [handlePointer]; try discriminate Hev.
  - rewrite Hidle. now rewrite IH.
  - now rewrite IH.
  - now rewrite IH.
  - now rewrite IH.
Qed.

(** X6: The brush paints only while the button is down.  After a mouse-up or
    after the pointer has left the canvas, events that are not a new
    mouse-down change nothing of the workspace; and with the button up to
    begin with, moving, entering and leaving change nothing either. *)
Theorem pointer_paints_only_while_down (preview : bool)
    (before after : list PointerEvent) (stop : PointerEvent)
    (s : PointerState * Workspace) :
  stop = MouseUp \/ stop = MouseLeave ->
  forallb (fun ev => negb (isMouseDown ev)) after = true ->
  snd (pointerRun preview (before ++ stop :: after) s) =
    snd (pointerRun preview before s) /\
  (isDrawing (fst s) = false -> snd (pointerRun preview after s) = snd s).
Proof.
  intros Hstop Hno. split; [|intros Hidle; now apply pointerRun_idle].
  unfold pointerRun at 1. rewrite fold_left_app. cbn [fold_left].
  fold (pointerRun preview before s).
  destruct (pointerRun preview before s) as [ptr ws].
  fold (pointerRun preview after (handlePointer preview (ptr, ws) stop)).
  destruct Hstop as [-> | ->]; cbn [handlePointer];
    now rewrite pointerRun_idle.
Qed.

(** ** Undo, repeated and after a replacement *)

Lemma undoEffect_singleton (trigger : Z) (preview : bool) (ws : Workspace) :
  length (historyRef ws) = 1 -> undoEffect trigger preview ws = ws.
Proof.
  intros Hlen. unfold undoEffect. rewrite Hlen.
  destruct (trigger =? 0)%Z; [reflexivity|].
  destruct (baseLayerRef ws); reflexivity.
Qed.

Lemma undoRun_invariant (preview : bool) (triggers : list Z) (ws : Workspace) :
  sessionInvariant ws -> sessionInvariant (undoRun preview triggers ws).
Proof.
  revert ws. induction triggers as [|t ts IH]; intros ws Hinv; [exact Hinv|].
  cbn [undoRun fold_left]. apply IH. now apply undoEffect_invariant.
Qed.

(** X7: Pressing undo [n] times walks back through the history and stops at its
    oldest entry: what is left is the first [max 1 (length - n)] snapshots,
    the base layer holds the last of them, and the mask is never touched.
    The history cannot be emptied. *)
Theorem undoRun_walks_back (preview : bool) (triggers : list Z) (ws : Workspace) :
  Forall (fun t => t <> 0%Z) triggers -> sessionInvariant ws ->
  let ws' := undoRun preview triggers ws in
  historyRef ws' =
    firstn (Nat.max 1 (length (historyRef ws) - length triggers)) (historyRef ws) /\
  currentBase ws' = last (historyRef ws') (blank 0 0) /\
  maskLayerRef ws' = maskLayerRef ws.
Proof.
  intros Hts Hinv ws'.
  assert (Hpath :
            historyRef ws' =
              firstn (Nat.max 1 (length (historyRef ws) - length triggers))
                (historyRef ws) /\
            maskLayerRef ws' = maskLayerRef ws).
  { unfold ws'. clear ws'. revert ws Hinv.
    induction Hts as [|t ts Ht Hts IH]; intros ws Hinv.
    - cbn [undoRun fold_left length]. split; [|reflexivity].
      rewrite Nat.sub_0_r. symmetry. apply firstn_all2.
      destruct Hinv as (d & b & m & _ & _ & _ & _ & _ & _ & _ & Hne & _).
      destruct (historyRef ws); [contradiction | cbn; lia].
    - cbn [undoRun fold_left length]. fold (undoRun preview ts (undoEffect t preview ws)).
      destruct (undoEffect_facts t preview ws Ht Hinv) as (Um & Uone & Upop).
      destruct (IH _ (undoEffect_invariant t preview ws Hinv)) as (IHh & IHm).
      rewrite IHh, IHm. split; [|exact Um].
      assert (Hne : historyRef ws <> [])
        by (destruct Hinv as (d & b & m & _ & _ & _ & _ & _ & _ & _ & Hne & _);
            exact Hne).
      destruct (Nat.eq_dec (length (historyRef ws)) 1) as [Hone | Hmore].
      + rewrite (Uone Hone), Hone.
        replace (1 - length ts) with (1 - S (length ts) + (1 - length ts)) at 1
          by lia.
        f_equal. lia.
      + assert (Hlong : 1 < length (historyRef ws))
          by (destruct (historyRef ws); [contradiction | cbn in *; lia]).
        destruct (Upop Hlong) as (Hh & _). rewrite Hh.
        rewrite removelast_firstn_len, firstn_firstn, length_firstn.
        f_equal. lia. }
  destruct Hpath as (Hh & Hm). split; [exact Hh|]. split; [|exact Hm].
  pose proof (undoRun_invariant preview triggers ws Hinv)
    as (d & b & m & _ & Hb & _ & _ & _ & _ & _ & _ & _ & Hlast).
  fold ws' in Hb, Hlast. unfold currentBase. now rewrite Hb, Hlast.
Qed.

Lemma autoRemoveEffect_history (trigger : Z) (img : Raster) (tol smooth : Z)
    (preview : bool) (ws : Workspace) :
  trigger <> 0%Z -> baseLayerRef ws <> None ->
  length (historyRef (autoRemoveEffect trigger img tol smooth preview ws)) = 1.
Proof.
  intros Ht Hb. apply Z.eqb_neq in Ht. unfold autoRemoveEffect. rewrite Ht.
  destruct (baseLayerRef ws) as [base|]; [|contradiction].
  match goal with |- context [renderCanvas preview ?s] =>
    destruct (renderCanvas_frame preview s) as (_ & _ & Fh) end.
  now rewrite Fh.
Qed.

Lemma aiOverrideEffect_history (url : string) (img : Raster) (preview : bool)
    (ws : Workspace) :
  truthy (Some url) = true -> decodeImage url = Some img ->
  baseLayerRef ws <> None ->
  length (historyRef (aiOverrideEffect (Some url) preview ws)) = 1.
Proof.
  intros Htruthy Hdec Hb. unfold aiOverrideEffect.
  destruct (baseLayerRef ws) as [base|]; [|contradiction].
  rewrite Htruthy, Hdec.
  match goal with |- context [renderCanvas preview ?s] =>
    destruct (renderCanvas_frame preview s) as (_ & _ & Fh) end.
  now rewrite Fh.
Qed.

(** X8: Undo cannot cross a replacement of the whole image: right after a
    load, after an auto-segmentation or after an applied AI image the
    history has one entry, and undo changes nothing. *)
Theorem undo_after_replacement (tUndo : Z) (preview preview' : bool)
    (ws : Workspace) :
  sessionInvariant ws ->
  (forall img,
     undoEffect tUndo preview' (initEffect img preview ws) =
     initEffect img preview ws) /\
  (forall trigger img tol smooth, trigger <> 0%Z ->
     undoEffect tUndo preview'
       (autoRemoveEffect trigger img tol smooth preview ws) =
     autoRemoveEffect trigger img tol smooth preview ws) /\
  (forall url img, truthy (Some url) = true -> decodeImage url = Some img ->
     undoEffect tUndo preview' (aiOverrideEffect (Some url) preview ws) =
     aiOverrideEffect (Some url) preview ws).
Proof.
  intros (display & base & mask & Hd & Hb & _).
  assert (Hd' : displayCanvasRef ws <> None) by (rewrite Hd; discriminate).
  assert (Hb' : baseLayerRef ws <> None) by (rewrite Hb; discriminate).
  split; [|split].
  - intros img. apply undoEffect_singleton.
    destruct (initEffect_refs img preview ws Hd') as (_ & _ & Fh). now rewrite Fh.
  - intros trigger img tol smooth Ht. apply undoEffect_singleton.
    now apply autoRemoveEffect_history.
  - intros url img Htruthy Hdec. apply undoEffect_singleton.
    now apply (aiOverrideEffect_history url img).
Qed.

(** ** Mounting and re-rendering *)

Lemma renderCanvas_twice (preview : bool) (ws : Workspace) :
  (forall display, displayCanvasRef ws = Some display ->
     globalAlpha display = alphaOne) ->
  renderCanvas preview (renderCanvas preview ws) = renderCanvas preview ws.
Proof.
  intros Hga. unfold renderCanvas at 2 3.
  destruct (displayCanvasRef ws) as [d|] eqn:Ed;
    [destruct (baseLayerRef ws) as [b|] eqn:Eb;
     [destruct (maskLayerRef ws) as [m|] eqn:Em|]|];
    try (unfold renderCanvas; now rewrite Ed, ?Eb, ?Em).
  unfold renderCanvas, setDisplay. cbn. rewrite Eb, Em.
  rewrite composite_idempotent; [reflexivity | now apply Hga].
Qed.

Lemma renderCanvas_initEffect (img : Raster) (preview : bool) (ws : Workspace) :
  renderCanvas preview (initEffect img preview ws) = initEffect img preview ws.
Proof.
  unfold initEffect. destruct (displayCanvasRef ws) as [d|] eqn:Ed.
  - apply renderCanvas_twice. cbn. intros display H. now injection H as <-.
  - unfold renderCanvas. now rewrite Ed.
Qed.

Lemma aiOverrideEffect_falsy (override : option string) (preview : bool)
    (ws : Workspace) :
  truthy override = false -> aiOverrideEffect override preview ws = ws.
Proof.
  intros H. unfold aiOverrideEffect. destruct override as [url|]; [|reflexivity].
  rewrite H. destruct (baseLayerRef ws); reflexivity.
Qed.

Lemma autoRemoveEffect_keeps_singleton (trigger : Z) (img : Raster) (tol smooth : Z)
    (preview : bool) (ws : Workspace) :
  length (historyRef ws) = 1 ->
  length (historyRef (autoRemoveEffect trigger img tol smooth preview ws)) = 1.
Proof.
  intros Hlen. destruct (Z.eq_dec trigger 0) as [-> | Ht]; [exact Hlen|].
  destruct (baseLayerRef ws) as [base|] eqn:Eb.
  - apply autoRemoveEffect_history; [exact Ht | rewrite Eb; discriminate].
  - unfold autoRemoveEffect. rewrite Eb. now destruct (trigger =? 0)%Z.
Qed.

(** X9: On mount every effect runs, with the counters as the parent holds
    them.  With no override set, the mounted workspace is the loaded image,
    then the auto-segmentation if its counter is already past 0, then a
    commit if the apply counter is; the undo effect finds a single history
    entry and does nothing.  So a component mounted with all counters at 0
    is just the loaded image, and one mounted after auto-removal has been
    used before starts with the segmentation already applied. *)
Theorem mount_runs_pending_effects (display : Canvas) (p : WorkspaceProps) :
  truthy (processedImageOverride p) = false ->
  let img := originalImage p in
  let preview := manualMaskPreview p in
  let loaded := initEffect img preview (mountedRefs display) in
  let mounted := runEffects None p (mountedRefs display) in
  mounted =
    manualApplyEffect (triggerManualApply p) preview
      (autoRemoveEffect (triggerAutoRemove p) img (tolerance p) (smoothing p)
         preview loaded) /\
  (triggerAutoRemove p = 0%Z -> triggerManualApply p = 0%Z -> mounted = loaded) /\
  (triggerAutoRemove p <> 0%Z -> triggerManualApply p = 0%Z ->
     baseLayerRef mounted =
       Some (removeBackgroundSmart
               (drawImage img (createCanvas (width img) (height img)))
               (width img) (height img) (tolerance p) (smoothing p))).
Proof.
  intros Hover img preview loaded mounted.
  assert (Hrun : mounted =
            manualApplyEffect (triggerManualApply p) preview
              (autoRemoveEffect (triggerAutoRemove p) img (tolerance p)
                 (smoothing p) preview loaded)).
  { unfold mounted, runEffects, changed. cbn [orb].
    fold img preview loaded.
    unfold loaded. rewrite renderCanvas_initEffect. fold loaded.
    rewrite aiOverrideEffect_falsy by exact Hover.
    rewrite undoEffect_singleton; [reflexivity|].
    apply autoRemoveEffect_keeps_singleton.
    destruct (initEffect_refs img preview (mountedRefs display)) as (_ & _ & Fh);
      [discriminate|].
    fold loaded in Fh. now rewrite Fh. }
  split; [exact Hrun|]. split.
  - intros Ha Hm. rewrite Hrun, Ha, Hm. reflexivity.
  - intros Ha Hm. rewrite Hrun, Hm.
    change (manualApplyEffect 0 preview ?w) with w.
    destruct (initEffect_refs img preview (mountedRefs display)) as (Fb & _ & _);
      [discriminate|].
    fold loaded in Fb.
    apply Z.eqb_neq in Ha. unfold autoRemoveEffect. rewrite Ha, Fb.
    match goal with |- context [renderCanvas preview ?s] =>
      destruct (renderCanvas_frame preview s) as (Rb & _ & _) end.
    rewrite Rb. cbn [baseLayerRef].
    change (width (bitmap (drawImage img (createCanvas (width img) (height img)))))
      with (width img).
    change (height (bitmap (drawImage img (createCanvas (width img) (height img)))))
      with (height img).
    do 2 f_equal.
    pose proof (clearRect_fresh (drawImage img (createCanvas (width img) (height img)))
                  eq_refl) as Hfresh.
    cbn [bitmap drawImage paint mapBitmap width height tabulate] in Hfresh.
    f_equal. exact Hfresh.
Qed.

(** X10: What a change of one prop re-runs.  A new brush size runs no effect.
    A new preview flag re-renders the display and nothing else.  A new
    tolerance or smoothing re-runs the auto-remove effect with the new
    value. *)
Theorem rerender_one_prop (p : WorkspaceProps) (ws : Workspace) :
  (forall size, runEffects (Some p) (withBrushSize size p) ws = ws) /\
  (forall b, b <> manualMaskPreview p ->
     runEffects (Some p) (withPreview b p) ws = renderCanvas b ws) /\
  (forall tol, tol <> tolerance p ->
     runEffects (Some p) (withTolerance tol p) ws =
     autoRemoveEffect (triggerAutoRemove p) (originalImage p) tol (smoothing p)
       (manualMaskPreview p) ws) /\
  (forall smooth, smooth <> smoothing p ->
     runEffects (Some p) (withSmoothing smooth p) ws =
     autoRemoveEffect (triggerAutoRemove p) (originalImage p) (tolerance p) smooth
       (manualMaskPreview p) ws).
Proof.
  split; [|split; [|split]].
  - intros size. unfold runEffects, changed, withBrushSize.
    cbn [originalImage tolerance smoothing triggerAutoRemove triggerUndo
         triggerManualApply manualMaskPreview processedImageOverride].
    now rewrite rasterEqb_refl, Bool.eqb_reflx, optionStringEqb_refl, !Z.eqb_refl.
  - intros b Hb. unfold runEffects, changed, withPreview.
    cbn [originalImage tolerance smoothing triggerAutoRemove triggerUndo
         triggerManualApply manualMaskPreview processedImageOverride].
    rewrite rasterEqb_refl, optionStringEqb_refl, !Z.eqb_refl.
    assert (Hne : Bool.eqb (manualMaskPreview p) b = false)
      by (destruct (manualMaskPreview p), b; try reflexivity; contradiction).
    now rewrite Hne.
  - intros tol Htol. unfold runEffects, changed, withTolerance.
    cbn [originalImage tolerance smoothing triggerAutoRemove triggerUndo
         triggerManualApply manualMaskPreview processedImageOverride].
    rewrite rasterEqb_refl, Bool.eqb_reflx, optionStringEqb_refl, !Z.eqb_refl.
    assert (Hne : (tolerance p =? tol)%Z = false) by (apply Z.eqb_neq; congruence).
    now rewrite Hne.
  - intros smooth Hsm. unfold runEffects, changed, withSmoothing.
    cbn [originalImage tolerance smoothing triggerAutoRemove triggerUndo
         triggerManualApply manualMaskPreview processedImageOverride].
    rewrite rasterEqb_refl, Bool.eqb_reflx, optionStringEqb_refl, !Z.eqb_refl.
    assert (Hne : (smoothing p =? smooth)%Z = false) by (apply Z.eqb_neq; congruence).
    now rewrite Hne.
Qed.

(** X11: Moving the tolerance slider is only harmless before auto-removal has
    been used.  While the auto-remove counter is 0 it changes nothing; once
    the counter is past 0 it recomputes the base from the original image,
    and with that the painted mask is wiped and the undo history is cut
    down to the one new snapshot. *)
Theorem tolerance_change_resets_edits (p : WorkspaceProps) (tol : Z)
    (ws : Workspace) :
  tol <> tolerance p -> sessionInvariant ws ->
  let ws' := runEffects (Some p) (withTolerance tol p) ws in
  (triggerAutoRemove p = 0%Z -> ws' = ws) /\
  (triggerAutoRemove p <> 0%Z ->
     isEmpty (currentMask ws') /\ length (historyRef ws') = 1).
Proof.
  intros Htol Hinv ws'.
  assert (Hrun : ws' =
            autoRemoveEffect (triggerAutoRemove p) (originalImage p) tol
              (smoothing p) (manualMaskPreview p) ws).
  { unfold ws', runEffects, changed, withTolerance.
    cbn [originalImage tolerance smoothing triggerAutoRemove triggerUndo
         triggerManualApply manualMaskPreview processedImageOverride].
    rewrite rasterEqb_refl, Bool.eqb_reflx, optionStringEqb_refl, !Z.eqb_refl.
    assert (Hne : (tolerance p =? tol)%Z = false) by (apply Z.eqb_neq; congruence).
    now rewrite Hne. }
  pose proof Hinv as
    (display & base & mask & Hd & Hb & Hm & Wd & Wb & Wm & _).
  split.
  - intros Ht. rewrite Hrun, Ht. reflexivity.
  - intros Ht. rewrite Hrun. split.
    + apply Z.eqb_neq in Ht. unfold autoRemoveEffect. rewrite Ht, Hb.
      match goal with |- context [renderCanvas ?pv ?s] =>
        destruct (renderCanvas_frame pv s) as (_ & Fm & _) end.
      unfold currentMask. rewrite Fm. cbn [maskLayerRef]. rewrite Hm.
      cbn [clearMask option_map]. intros x y.
      destruct Wm as (_ & Hmw & Hmh & _).
      rewrite clearRect_pixel; [reflexivity | lia | lia].
    + apply autoRemoveEffect_history; [exact Ht | rewrite Hb; discriminate].
Qed.

(** ** The App's buttons and the effects they set off *)

Lemma firstInlineImage_truthy (ps : list GeminiService.Part) (url : string) :
  GeminiService.firstInlineImage ps = Some url -> truthy (Some url) = true.
Proof.
  induction ps as [|part rest IH]; [discriminate|].
  cbn [GeminiService.firstInlineImage].
  destruct (GeminiService.inlineData part) as [blob|]; [|exact IH].
  destruct (GeminiService.data blob) as [payload|]; [|exact IH].
  destruct (truthy (Some payload)); [|exact IH].
  intros H. injection H as <-. reflexivity.
Qed.

Lemma removeBackgroundWithAi_truthy
    (generateContent : string -> Completion GeminiService.GenerateContentResponse)
    (base64Image url : string) :
  GeminiService.removeBackgroundWithAi generateContent base64Image
    = Resolved (Some url) ->
  truthy (Some url) = true.
Proof.
  unfold GeminiService.removeBackgroundWithAi.
  destruct (generateContent _) as [response|error]; [|discriminate].
  destruct (GeminiService.responseParts response) as [ps|]; [|discriminate].
  destruct (GeminiService.firstInlineImage ps) as [u|] eqn:E; [|discriminate].
  intros H. injection H as <-. now apply (firstInlineImage_truthy ps).
Qed.

Lemma optionStringEqb_eq (a b : option string) :
  optionStringEqb a b = true <-> a = b.
Proof.
  destruct a as [x|], b as [y|]; cbn; try (split; congruence).
  rewrite String.eqb_eq. split; congruence.
Qed.

(** X12: When the AI call returns an image, [handleAiRemove] stores its data URL
    as the override, raises no alert and ends with the processing flag
    down.  The workspace then runs the AI-override effect and no other,
    but only if the URL differs from the override already stored: the
    same answer twice is applied once.  If the URL does not decode, the
    workspace stays as it is. *)
Theorem handleAiRemove_applies
    (generateContent : string -> Completion GeminiService.GenerateContentResponse)
    (st : App.State) (img : App.Image) (url : string)
    (tUndo tApply : Z) (preview : bool) (ws : Workspace) :
  App.originalImage st = Some img ->
  GeminiService.removeBackgroundWithAi generateContent (App.src img)
    = Resolved (Some url) ->
  let st' := App.handleAiRemove generateContent st in
  App.processedImageOverride st' = Some url /\
  App.isProcessing st' = false /\
  App.alerts st' = App.alerts st /\
  exists p,
    App.workspaceProps st tUndo tApply preview = Some p /\
    App.workspaceProps st' tUndo tApply preview =
      Some (withOverride (Some url) p) /\
    (processedImageOverride p = Some url ->
       runEffects (Some p) (withOverride (Some url) p) ws = ws) /\
    (processedImageOverride p <> Some url ->
       runEffects (Some p) (withOverride (Some url) p) ws =
       aiOverrideEffect (Some url) preview ws) /\
    (decodeImage url = None ->
       runEffects (Some p) (withOverride (Some url) p) ws = ws).
Proof.
  intros Himg Hres st'.
  pose proof (removeBackgroundWithAi_truthy generateContent _ url Hres) as Htruthy.
  assert (Hst : st' =
            App.setIsProcessing false
              (App.setProcessedImageOverride (Some url)
                 (App.setIsProcessing true st))).
  { unfold st', App.handleAiRemove. now rewrite Himg, Hres, Htruthy. }
  rewrite Hst. cbn [App.processedImageOverride App.isProcessing App.alerts
                    App.setIsProcessing App.setProcessedImageOverride].
  split; [reflexivity|]. split; [reflexivity|]. split; [reflexivity|].
  unfold App.workspaceProps.
  cbn [App.originalImage App.brushSize App.tolerance App.smoothing
       App.triggerAutoRemove App.processedImageOverride
       App.setIsProcessing App.setProcessedImageOverride
       Shell.setTriggerAutoRemove].
  rewrite Himg. eexists. split; [reflexivity|]. split; [reflexivity|].
  assert (Hrun : forall same,
            optionStringEqb (App.processedImageOverride st) (Some url) = same ->
            runEffects (Some
                 (mkProps (App.decoded img) (App.brushSize st) (App.tolerance st)
                    (App.smoothing st) (App.triggerAutoRemove st) tUndo
                    tApply preview (App.processedImageOverride st)))
              (withOverride (Some url)
                 (mkProps (App.decoded img) (App.brushSize st) (App.tolerance st)
                    (App.smoothing st) (App.triggerAutoRemove st) tUndo
                    tApply preview (App.processedImageOverride st)))
              ws =
            if same then ws else aiOverrideEffect (Some url) preview ws).
  { intros same Hsame. unfold runEffects, changed, withOverride.
    cbn [originalImage tolerance smoothing triggerAutoRemove triggerUndo
         triggerManualApply manualMaskPreview processedImageOverride].
    rewrite rasterEqb_refl, Bool.eqb_reflx, !Z.eqb_refl, Hsame.
    now destruct same. }
  cbn [processedImageOverride].
  split; [|split].
  - intros Hsame. rewrite (Hrun true); [reflexivity|].
    now apply optionStringEqb_eq.
  - intros Hdiff. rewrite (Hrun false); [reflexivity|].
    destruct (optionStringEqb (App.processedImageOverride st) (Some url)) eqn:E;
      [|reflexivity].
    apply optionStringEqb_eq in E. contradiction.
  - intros Hdec.
    rewrite (Hrun _ eq_refl).
    destruct (optionStringEqb (App.processedImageOverride st) (Some url));
      [reflexivity|].
    unfold aiOverrideEffect. rewrite Htruthy, Hdec.
    destruct (baseLayerRef ws); reflexivity.
Qed.

(** X13: Pressing "Apply Smart Remove" raises the auto-remove counter by one, so
    above 0, and clears the override.  The workspace then runs the
    auto-remove effect with that counter on the original picture; the
    AI-override effect may run too, finds no override and does nothing. *)
Theorem handleAutoRemove_reruns (st : App.State) (img : App.Image)
    (tUndo tApply : Z) (preview : bool) (ws : Workspace) :
  App.originalImage st = Some img -> (0 <= App.triggerAutoRemove st)%Z ->
  let st' := Shell.handleAutoRemove st in
  (0 < App.triggerAutoRemove st')%Z /\
  App.processedImageOverride st' = None /\
  App.isProcessing st' = false /\
  exists p,
    App.workspaceProps st tUndo tApply preview = Some p /\
    App.workspaceProps st' tUndo tApply preview =
      Some (withAutoRemovePressed p) /\
    runEffects (Some p) (withAutoRemovePressed p) ws =
      autoRemoveEffect (App.triggerAutoRemove st + 1) (App.decoded img)
        (App.tolerance st) (App.smoothing st) preview ws.
Proof.
  intros Himg Hcount st'. unfold st', Shell.handleAutoRemove.
  cbn [App.triggerAutoRemove App.processedImageOverride App.isProcessing
       App.setIsProcessing App.setProcessedImageOverride
       Shell.setTriggerAutoRemove].
  split; [lia|]. split; [reflexivity|]. split; [reflexivity|].
  unfold App.workspaceProps.
  cbn [App.originalImage App.brushSize App.tolerance App.smoothing
       App.triggerAutoRemove App.processedImageOverride
       App.setIsProcessing App.setProcessedImageOverride
       Shell.setTriggerAutoRemove].
  rewrite Himg. eexists. split; [reflexivity|]. split; [reflexivity|].
  unfold runEffects, changed, withAutoRemovePressed.
  cbn [originalImage tolerance smoothing triggerAutoRemove triggerUndo
       triggerManualApply manualMaskPreview processedImageOverride].
  rewrite rasterEqb_refl, Bool.eqb_reflx, !Z.eqb_refl.
  assert (Hne : (App.triggerAutoRemove st =? App.triggerAutoRemove st + 1)%Z = false)
    by (apply Z.eqb_neq; lia).
  rewrite Hne. cbn [negb orb].
  destruct (negb (optionStringEqb (App.processedImageOverride st) None));
    reflexivity.
Qed.

End Engine.

(** * The App shell *)

Lemma beforeDot_no_dot (s : string) : Shell.hasDot (Shell.beforeDot s) = false.
Proof.
  induction s as [|c rest IH]; [reflexivity|].
  cbn [Shell.beforeDot]. destruct (Ascii.eqb c ".") eqn:E; [reflexivity|].
  cbn [Shell.hasDot]. now rewrite E, IH.
Qed.

Lemma beforeDot_without_dot (s : string) :
  Shell.hasDot s = false -> Shell.beforeDot s = s.
Proof.
  induction s as [|c rest IH]; [reflexivity|].
  cbn [Shell.hasDot Shell.beforeDot]. intros H.
  apply orb_false_iff in H as [Hc Hrest]. rewrite Hc. now rewrite IH.
Qed.

Lemma beforeDot_prefix (s : string) :
  exists rest,
    s = (Shell.beforeDot s ++ rest)%string /\
    (rest = EmptyString \/ exists r, rest = String "." r).
Proof.
  induction s as [|c s IH].
  - exists EmptyString. split; [reflexivity | now left].
  - cbn [Shell.beforeDot]. destruct (Ascii.eqb c ".") eqn:E.
    + apply Ascii.eqb_eq in E. subst c. exists (String "." s).
      split; [reflexivity | right; now exists s].
    + destruct IH as (rest & Hs & Hrest). exists rest. split; [|exact Hrest].
      cbn [append]. now rewrite <- Hs.
Qed.

(** X14: A picture opened through the file dialog is named by the part of the
    file name before its first dot: the stored name has no dot, is the
    whole file name when that has none, and is empty for a name that
    starts with a dot.  The override of an earlier AI result is dropped,
    and until the workspace has reported an image there is nothing to
    download. *)
Theorem upload_names_file (f : Shell.File) (img : App.Image) (st : Shell.State) :
  Shell.picture f = Some img ->
  let st' := Shell.handleImageUpload (Some f) st in
  Shell.fileName st' = Shell.beforeDot (Shell.name f) /\
  Shell.hasDot (Shell.fileName st') = false /\
  (Shell.hasDot (Shell.name f) = false -> Shell.fileName st' = Shell.name f) /\
  (exists rest,
     Shell.name f = (Shell.fileName st' ++ rest)%string /\
     (rest = EmptyString \/ exists r, rest = String "." r)) /\
  App.originalImage (Shell.core st') = Some img /\
  App.processedImageOverride (Shell.core st') = None /\
  Shell.handleDownload st' = st'.
Proof.
  intros Hpic st'. unfold st', Shell.handleImageUpload. rewrite Hpic.
  cbn [Shell.fileName Shell.core Shell.processedImage].
  split; [reflexivity|]. split; [apply beforeDot_no_dot|].
  split; [apply beforeDot_without_dot|]. split; [apply beforeDot_prefix|].
  repeat split.
Qed.


Lemma keepsSuggestion_step (st : Shell.State) (ev : Shell.Event) :
  truthy (Shell.aiSuggestedName st) = true ->
  Shell.keepsSuggestion ev = true ->
  truthy (Shell.aiSuggestedName (Shell.step st ev)) = true /\
  Shell.analysisRequests (Shell.step st ev) = Shell.analysisRequests st.
Proof.
  intros Hs Hev. destruct ev as [file|file|url|suggested| |]; cbn [Shell.step].
  - unfold Shell.handleImageUpload. destruct file as [f|]; [|now split].
    destruct (Shell.picture f); now split.
  - discriminate Hev.
  - unfold Shell.handleProcessedImageUpdate. rewrite Hs.
    rewrite andb_false_r. cbn [andb]. now split.
  - cbn [Shell.keepsSuggestion] in Hev. now split.
  - now split.
  - unfold Shell.handleDownload. destruct (Shell.processedImage st) as [u|]; [|now split].
    destruct (truthy (Some u)); now split.
Qed.

(** X16: Once a name has been suggested, no picture opened through the file
    dialog is analysed again: as long as nothing is dropped on the page and
    no empty suggestion comes back, no further request for a name is made,
    whatever is uploaded and however often the workspace reports an
    image. *)
Theorem suggestion_blocks_analysis (events : list Shell.Event) (st : Shell.State) :
  truthy (Shell.aiSuggestedName st) = true ->
  forallb Shell.keepsSuggestion events = true ->
  Shell.analysisRequests (Shell.run events st) = Shell.analysisRequests st /\
  truthy (Shell.aiSuggestedName (Shell.run events st)) = true.
Proof.
  revert st. induction events as [|ev events IH]; intros st Hs Hall.
  - now split.
  - cbn [forallb] in Hall. apply andb_true_iff in Hall as [Hev Hall].
    destruct (keepsSuggestion_step st ev Hs Hev) as (Hs' & Hreq).
    cbn [Shell.run fold_left]. fold (Shell.run events (Shell.step st ev)).
    destruct (IH _ Hs' Hall) as (IHreq & IHs). split; [congruence | exact IHs].
Qed.

(** X17: A picture dropped on the page is analysed afresh: the drop clears the
    stored suggestion and the analysing flag, so the next image the
    workspace reports is sent for a name, whatever was suggested before.
    A dropped file whose type does not start with "image/", or that does
    not decode, changes nothing. *)
Theorem drop_restarts_analysis (f : Shell.File) (st : Shell.State)
    (dataUrl : string) :
  let dropped := Shell.handleDrop (Some f) st in
  (String.prefix "image/" (Shell.type f) = false -> dropped = st) /\
  (Shell.picture f = None -> dropped = st) /\
  (forall img, String.prefix "image/" (Shell.type f) = true ->
     Shell.picture f = Some img ->
     Shell.aiSuggestedName dropped = None /\
     Shell.analysisRequests (Shell.handleProcessedImageUpdate dataUrl dropped) =
       Shell.analysisRequests st ++ [dataUrl] /\
     Shell.isAnalysing (Shell.handleProcessedImageUpdate dataUrl dropped) = true).
Proof.
  intros dropped. unfold dropped, Shell.handleDrop.
  split; [|split].
  - intros H. now rewrite H.
  - intros H. rewrite H. now destruct (String.prefix "image/" (Shell.type f)).
  - intros img Hty Hpic. rewrite Hty, Hpic. repeat split.
Qed.

Lemma updates_not_ready (urls : list string) (st : Shell.State) :
  negb (Shell.isAnalysing st) && negb (truthy (Shell.aiSuggestedName st))
    && match App.originalImage (Shell.core st) with
       | Some _ => true
       | None => false
       end = false ->
  Shell.analysisRequests (Shell.run (map Shell.Updated urls) st) =
    Shell.analysisRequests st.
Proof.
  revert st. induction urls as [|u urls IH]; intros st Hnot; [reflexivity|].
  cbn [map Shell.run fold_left Shell.step].
  fold (Shell.run (map Shell.Updated urls) (Shell.handleProcessedImageUpdate u st)).
  unfold Shell.handleProcessedImageUpdate. rewrite Hnot.
  rewrite IH; [reflexivity | exact Hnot].
Qed.

(** X18: However many images the workspace reports in a row, a name is asked
    for at most once, and for the first of them: if no analysis is running,
    no name is stored and a picture is open, the first report is sent for
    analysis and the later ones are not; otherwise none is. *)
Theorem updates_request_once (url : string) (urls : list string)
    (st : Shell.State) :
  let ready :=
    negb (Shell.isAnalysing st) && negb (truthy (Shell.aiSuggestedName st))
      && match App.originalImage (Shell.core st) with
         | Some _ => true
         | None => false
         end in
  Shell.analysisRequests (Shell.run (map Shell.Updated (url :: urls)) st) =
    Shell.analysisRequests st ++ (if ready then [url] else []).
Proof.
  intros ready. cbn [map Shell.run fold_left Shell.step].
  fold (Shell.run (map Shell.Updated urls) (Shell.handleProcessedImageUpdate url st)).
  rewrite updates_not_ready.
  - unfold Shell.handleProcessedImageUpdate. fold ready.
    destruct ready; cbn [Shell.analysisRequests]; [reflexivity | now rewrite app_nil_r].
  - unfold Shell.handleProcessedImageUpdate. fold ready.
    destruct ready eqn:E; cbn [Shell.isAnalysing Shell.aiSuggestedName Shell.core];
      [reflexivity | exact E].
Qed.

(** * The request and the answer of the AI service *)

Lemma dropPrefix_append (prefix s : string) :
  GeminiService.dropPrefix prefix (prefix ++ s) = Some s.
Proof.
  induction prefix as [|c prefix IH]; [reflexivity|].
  cbn [append GeminiService.dropPrefix]. now rewrite Ascii.eqb_refl.
Qed.

Lemma dropPrefix_split (p q s : string) :
  GeminiService.dropPrefix (p ++ q) s =
  match GeminiService.dropPrefix p s with
  | Some r => GeminiService.dropPrefix q r
  | None => None
  end.
Proof.
  revert s. induction p as [|c p IH]; intros s; [reflexivity|].
  cbn [append GeminiService.dropPrefix]. destruct s as [|b s]; [reflexivity|].
  destruct (Ascii.eqb c b); [apply IH | reflexivity].
Qed.

(** X19: The payload sent to the service is the image's data URL without its
    header when the header names a PNG, JPEG, JPG or WebP image; any other
    string, such as the data URL of a GIF or a string that is no image
    data URL at all, is sent as it is. *)
Theorem cleanBase64_strips (payload : string) :
  GeminiService.cleanBase64 ("data:image/png;base64," ++ payload) = payload /\
  GeminiService.cleanBase64 ("data:image/jpeg;base64," ++ payload) = payload /\
  GeminiService.cleanBase64 ("data:image/jpg;base64," ++ payload) = payload /\
  GeminiService.cleanBase64 ("data:image/webp;base64," ++ payload) = payload /\
  GeminiService.cleanBase64 ("data:image/gif;base64," ++ payload) =
    ("data:image/gif;base64," ++ payload)%string /\
  forall s, GeminiService.dropPrefix "data:image/" s = None ->
    GeminiService.cleanBase64 s = s.
Proof.
  repeat split.
  intros s Hs. unfold GeminiService.cleanBase64. cbn [GeminiService.dropFirstPrefix].
  change "data:image/png;base64,"%string with ("data:image/" ++ "png;base64,")%string.
  change "data:image/jpeg;base64,"%string with ("data:image/" ++ "jpeg;base64,")%string.
  change "data:image/jpg;base64,"%string with ("data:image/" ++ "jpg;base64,")%string.
  change "data:image/webp;base64,"%string with ("data:image/" ++ "webp;base64,")%string.
  now rewrite !dropPrefix_split, Hs.
Qed.

Lemma firstInlineImage_skips (before rest : list GeminiService.Part) :
  forallb (fun part => negb (GeminiService.hasPayload part)) before = true ->
  GeminiService.firstInlineImage (before ++ rest) =
  GeminiService.firstInlineImage rest.
Proof.
  induction before as [|part before IH]; [reflexivity|].
  cbn [forallb app GeminiService.firstInlineImage]. intros H.
  apply andb_true_iff in H as [Hpart Hrest].
  unfold GeminiService.hasPayload in Hpart.
  destruct (GeminiService.inlineData part) as [blob|]; [|now apply IH].
  destruct (GeminiService.data blob) as [payload|]; [|now apply IH].
  destruct (truthy (Some payload)); [discriminate | now apply IH].
Qed.

(** X20: The image returned is built from the first part of the answer that
    carries a payload, parts without one being skipped: it is the data
    URL of that payload under the part's MIME type, or under image/png
    when the part names none.  It is never the empty string, and when the
    type is one of PNG, JPEG, JPG and WebP, cleaning it as a request gives
    the payload back. *)
Theorem firstInlineImage_first_payload (before after : list GeminiService.Part)
    (part : GeminiService.Part) (blob : GeminiService.Blob) (payload : string) :
  forallb (fun p => negb (GeminiService.hasPayload p)) before = true ->
  GeminiService.inlineData part = Some blob ->
  GeminiService.data blob = Some payload ->
  truthy (Some payload) = true ->
  let mime := GeminiService.orElse (GeminiService.mimeType blob) "image/png" in
  let url := ("data:" ++ mime ++ ";base64," ++ payload)%string in
  GeminiService.firstInlineImage (before ++ part :: after) = Some url /\
  truthy (Some url) = true /\
  (GeminiService.mimeType blob = None -> mime = "image/png"%string) /\
  (In mime ["image/png"; "image/jpeg"; "image/jpg"; "image/webp"]%string ->
     GeminiService.cleanBase64 url = payload).
Proof.
  intros Hskip Hblob Hdata Htruthy mime url.
  split; [|split; [|split]].
  - rewrite firstInlineImage_skips by exact Hskip.
    cbn [GeminiService.firstInlineImage]. now rewrite Hblob, Hdata, Htruthy.
  - reflexivity.
  - intros Hnone. unfold mime. now rewrite Hnone.
  - intros Hin. unfold url.
    cbn [In] in Hin. destruct Hin as [<- | [<- | [<- | [<- | []]]]]; reflexivity.
Qed.

(** X21: What the user is told of an AI removal.  Without a picture nothing
    happens.  With one, the processing flag is down again at the end
    whatever the outcome; a service error raises exactly one alert; an
    answer without an image raises none and changes nothing else, so it
    goes unnoticed. *)
Theorem handleAiRemove_feedback
    (generateContent : string -> Completion GeminiService.GenerateContentResponse)
    (st : App.State) :
  (App.originalImage st = None -> App.handleAiRemove generateContent st = st) /\
  (forall img, App.originalImage st = Some img ->
     let result := GeminiService.removeBackgroundWithAi generateContent (App.src img) in
     let st' := App.handleAiRemove generateContent st in
     App.isProcessing st' = false /\
     (forall error, result = Rejected error ->
        exists msg, App.alerts st' = App.alerts st ++ [msg] /\
          App.processedImageOverride st' = App.processedImageOverride st) /\
     (result = Resolved None -> st' = App.setIsProcessing false st)).
Proof.
  split.
  - intros Hnone. unfold App.handleAiRemove. now rewrite Hnone.
  - intros img Himg result st'. unfold st', App.handleAiRemove. rewrite Himg.
    fold result. split; [|split].
    + destruct result as [[[|a url]|]|error]; reflexivity.
    + intros error ->. eexists. split; reflexivity.
    + intros ->. reflexivity.
Qed.

(** * The one-canvas workspace *)

(** X22: In the one-canvas version an applied AI image resizes the canvas to
    the image: the canvas takes the image's width and height, the alpha of
    each of its pixels, and the whole pixel where the image is opaque (a
    pixel without alpha shows as transparent black), whatever size and
    content the canvas had.  An override that does not decode leaves the
    canvas as it was. *)
Theorem single_canvas_ai_resizes (decodeImage : string -> option Raster)
    (url : string) (canvas : Canvas) :
  truthy (Some url) = true ->
  let after := SingleCanvas.aiOverrideEffect decodeImage (Some url) (Some canvas) in
  (decodeImage url = None -> after = Some canvas) /\
  (forall img, decodeImage url = Some img ->
     width (SingleCanvas.pixels after) = width img /\
     height (SingleCanvas.pixels after) = height img /\
     (forall x y, alpha (getPixel img x y) = 255%Z ->
        getPixel (SingleCanvas.pixels after) x y = getPixel img x y) /\
     (forall x y, (0 <= alpha (getPixel img x y))%Z ->
        alpha (getPixel (SingleCanvas.pixels after) x y) =
        alpha (getPixel img x y)) /\
     (forall x y, alpha (getPixel img x y) = 0%Z ->
        getPixel (SingleCanvas.pixels after) x y = transparent)).
Proof.
  intros Htruthy after. unfold after, SingleCanvas.aiOverrideEffect.
  rewrite Htruthy. split.
  - intros ->. reflexivity.
  - intros img ->. cbn [SingleCanvas.pixels].
    assert (Hfresh : clearRect (width img) (height img)
                       (createCanvas (width img) (height img)) =
                     createCanvas (width img) (height img)).
    { apply (clearRect_fresh (createCanvas (width img) (height img))). reflexivity. }
    rewrite Hfresh.
    split; [reflexivity|]. split; [reflexivity|]. split; [|split].
    + intros x y Ha. rewrite loaded_pixel, sourceOver_onto_transparent by lia.
      now rewrite Ha.
    + intros x y Ha. rewrite loaded_pixel. apply sourceOver_onto_transparent_alpha.
    + intros x y Ha. rewrite loaded_pixel, sourceOver_onto_transparent by lia.
      now rewrite Ha.
Qed.

(** X23: In the one-canvas version the canvas is sized by the last picture
    drawn on it, and auto-removal does not size it back.  Mounted with the
    original, given an AI image of another size and then "Apply Smart
    Remove", the workspace segments the original drawn at the top-left
    corner of a canvas of the AI image's size: cut off where the original
    is larger, transparent where it is smaller. *)
Theorem single_canvas_auto_after_ai
    (removeBackgroundSmart : Canvas -> nat -> nat -> Z -> Z -> Canvas)
    (decodeImage : string -> option Raster)
    (p : WorkspaceProps) (url : string) (replacement : Raster) (canvas : Canvas) :
  triggerAutoRemove p = 0%Z -> processedImageOverride p = None ->
  truthy (Some url) = true -> decodeImage url = Some replacement ->
  let run := SingleCanvas.runEffects removeBackgroundSmart decodeImage in
  let mounted := run None p (Some canvas) in
  let replaced := run (Some p) (withOverride (Some url) p) mounted in
  let segmented :=
    run (Some (withOverride (Some url) p))
      (withAutoRemovePressed (withOverride (Some url) p)) replaced in
  mounted =
    Some (drawImage (originalImage p)
            (createCanvas (width (originalImage p)) (height (originalImage p)))) /\
  replaced =
    Some (drawImage replacement
            (createCanvas (width replacement) (height replacement))) /\
  segmented =
    Some (removeBackgroundSmart
            (drawImage (originalImage p)
               (createCanvas (width replacement) (height replacement)))
            (width replacement) (height replacement)
            (tolerance p) (smoothing p)) /\
  (forall x y, x < width replacement -> y < height replacement ->
     getPixel
       (bitmap (drawImage (originalImage p)
                  (createCanvas (width replacement) (height replacement)))) x y =
     sourceOver alphaOne (getPixel (originalImage p) x y) transparent).
Proof.
  intros Htrig Hover Htruthy Hdec run mounted replaced segmented.
  assert (Hpix : forall x y, x < width replacement -> y < height replacement ->
            getPixel
              (bitmap (drawImage (originalImage p)
                         (createCanvas (width replacement) (height replacement))))
              x y =
            sourceOver alphaOne (getPixel (originalImage p) x y) transparent).
  { intros x y Hx Hy. unfold drawImage.
    rewrite getPixel_paint by exact Hx || exact Hy.
    cbn [globalCompositeOperation globalAlpha createCanvas bitmap blend].
    unfold blank. now rewrite getPixel_tabulate. }
  assert (Hfresh : forall w h,
            clearRect w h (createCanvas w h) = createCanvas w h).
  { intros w h. apply (clearRect_fresh (createCanvas w h)). reflexivity. }
  assert (Hm : mounted =
            Some (drawImage (originalImage p)
                    (createCanvas (width (originalImage p))
                       (height (originalImage p))))).
  { unfold mounted, run, SingleCanvas.runEffects. cbn [orb].
    rewrite Hover, Htrig. reflexivity. }
  assert (Hr : replaced =
            Some (drawImage replacement
                    (createCanvas (width replacement) (height replacement)))).
  { unfold replaced, run, SingleCanvas.runEffects, withOverride.
    cbn [originalImage tolerance smoothing triggerAutoRemove
         processedImageOverride].
    rewrite rasterEqb_refl, !Z.eqb_refl, Hover. cbn [optionStringEqb negb orb].
    rewrite Hm. unfold SingleCanvas.aiOverrideEffect.
    now rewrite Htruthy, Hdec, Hfresh. }
  split; [exact Hm|]. split; [exact Hr|]. split; [|exact Hpix].
  unfold segmented, run, SingleCanvas.runEffects, withAutoRemovePressed, withOverride.
  cbn [originalImage tolerance smoothing triggerAutoRemove
       processedImageOverride].
  rewrite rasterEqb_refl, !Z.eqb_refl, Htrig. cbn [optionStringEqb negb orb Z.add].
  change (0 =? 1)%Z with false. cbn [negb orb].
  rewrite Hr. cbn [SingleCanvas.aiOverrideEffect].
  unfold SingleCanvas.autoRemoveEffect. change (1 =? 0)%Z with false. cbv iota.
  cbv zeta.
  change (width (bitmap (drawImage replacement
                           (createCanvas (width replacement) (height replacement)))))
    with (width replacement).
  change (height (bitmap (drawImage replacement
                            (createCanvas (width replacement) (height replacement)))))
    with (height replacement).
  do 2 f_equal.
  pose proof (clearRect_fresh
                (drawImage replacement
                   (createCanvas (width replacement) (height replacement)))
                eq_refl) as Hclear.
  cbn [bitmap drawImage paint mapBitmap width height tabulate] in Hclear.
  f_equal. exact Hclear.
Qed.
(** * The model run on examples *)

Lemma keyOutCorner_canvas (c : Canvas) (w h : nat) (tol smooth : Z) :
  wfCanvas w h c -> wfCanvas w h (keyOutCorner c w h tol smooth).
Proof.
  intros (_ & Hw & Hh & Hop & Hga). now apply wfCanvas_mapBitmap.
Qed.

Lemma freshDot_invariant : sessionInvariant freshDot.
Proof. apply initEffect_invariant. discriminate. Qed.

Lemma halfPainted_invariant (preview : bool) : sessionInvariant (halfPainted preview).
Proof. apply drawOnMask_invariant, initEffect_invariant. discriminate. Qed.

Lemma empty_dot (r : Raster) :
  r = mkRaster 1 1 [transparent] -> isEmpty r.
Proof.
  intros -> x y. destruct x as [|x]; destruct y as [|y]; reflexivity.
Qed.

(** C1, as stated, fails on the code twice.  On a freshly loaded session
    the mask is empty, yet a commit pushes a second history entry; and on a
    pixel the brush covers by half (mask alpha 128) the committed base
    pixel keeps alpha 127 instead of dropping to 0. *)
Lemma manualApplyEffect_counterexample :
  isEmpty (currentMask freshDot) /\
  length (historyRef freshDot) = 1 /\
  length (historyRef (manualApplyEffect 1 false freshDot)) = 2 /\
  alpha (getPixel (currentMask (halfPainted false)) 0 0) = 128%Z /\
  alpha (getPixel (currentBase (manualApplyEffect 1 false (halfPainted false))) 0 0)
    = 127%Z.
Proof.
  split; [apply empty_dot; reflexivity|].
  repeat split.
Qed.

Lemma manualApplyEffect_spec_witness :
  (1 <> 0)%Z /\ sessionInvariant (halfPainted false) /\
  historyRef (manualApplyEffect 1 false (halfPainted false)) =
    historyRef (halfPainted false)
      ++ [currentBase (manualApplyEffect 1 false (halfPainted false))].
Proof.
  assert (Ht : (1 <> 0)%Z) by discriminate.
  split; [exact Ht|]. split; [exact (halfPainted_invariant false)|].
  exact (proj1 (proj2 (proj2 (proj2 (proj2
           (manualApplyEffect_spec 1 false (halfPainted false) Ht
              (halfPainted_invariant false))))))).
Defined.

(** C2, as stated, fails on the code: after one commit the history has two
    entries; auto-segmentation then leaves one, not three. *)
Lemma autoRemoveEffect_counterexample :
  length (historyRef (manualApplyEffect 1 false freshDot)) = 2 /\
  length
    (historyRef
       (autoRemoveEffect keyOutCorner 1 greyDot 15 0 false
          (manualApplyEffect 1 false freshDot))) = 1.
Proof. split; reflexivity. Qed.

Lemma autoRemoveEffect_spec_witness :
  (1 <> 0)%Z /\ sessionInvariant (manualApplyEffect 1 false freshDot) /\
  historyRef
    (autoRemoveEffect keyOutCorner 1 greyDot 15 0 false
       (manualApplyEffect 1 false freshDot)) =
  [currentBase
     (autoRemoveEffect keyOutCorner 1 greyDot 15 0 false
        (manualApplyEffect 1 false freshDot))].
Proof.
  assert (Ht : (1 <> 0)%Z) by discriminate.
  assert (Hinv : sessionInvariant (manualApplyEffect 1 false freshDot))
    by (apply manualApplyEffect_invariant, freshDot_invariant).
  split; [exact Ht|]. split; [exact Hinv|].
  exact (proj2 (proj2
           (autoRemoveEffect_spec keyOutCorner keyOutCorner_canvas 1 greyDot 15 0
              false (manualApplyEffect 1 false freshDot) Ht Hinv))).
Defined.

(** C3, as stated, fails on the code: a replacement image two pixels wide
    applied to a base one pixel wide leaves the base one pixel wide. *)
Lemma aiOverrideEffect_counterexample :
  decodePair pairUrl = Some greyWhitePair /\
  width greyWhitePair = 2 /\
  width (currentBase freshDot) = 1 /\
  width (currentBase
           (aiOverrideEffect decodePair nearestSample (Some pairUrl) false freshDot))
    = 1.
Proof. repeat split. Qed.

Lemma aiOverrideEffect_spec_witness :
  truthy (Some pairUrl) = true /\
  decodePair pairUrl = Some greyWhitePair /\
  sessionInvariant freshDot /\
  historyRef
    (aiOverrideEffect decodePair nearestSample (Some pairUrl) false freshDot) =
  [currentBase
     (aiOverrideEffect decodePair nearestSample (Some pairUrl) false freshDot)].
Proof.
  split; [reflexivity|]. split; [reflexivity|]. split; [exact freshDot_invariant|].
  exact (proj2 (proj2 (proj2 (proj2
           (aiOverrideEffect_spec decodePair nearestSample pairUrl greyWhitePair
              false freshDot eq_refl eq_refl freshDot_invariant))))).
Defined.



Lemma history_bounded_fifo_witness :
  reachable keyOutCorner decodePair nearestSample dotProps
    (runEffects keyOutCorner decodePair nearestSample None dotProps
       (mountedRefs (createCanvas 1 1))) /\
  forall strokes preview,
    historyRef
      (commits 25 strokes preview
         (runEffects keyOutCorner decodePair nearestSample None dotProps
            (mountedRefs (createCanvas 1 1)))) =
    map (fun k =>
           currentBase
             (commits k strokes preview
                (runEffects keyOutCorner decodePair nearestSample None dotProps
                   (mountedRefs (createCanvas 1 1)))))
      (seq 6 20).
Proof.
  split; [apply reach_mount|].
  exact (proj2 (proj2 (proj2
           (history_bounded_fifo keyOutCorner decodePair nearestSample
              keyOutCorner_canvas dotProps _
              (reach_mount keyOutCorner decodePair nearestSample
                 (createCanvas 1 1) dotProps))))).
Defined.

Lemma commit_then_undo_witness :
  (1 <> 0)%Z /\ (2 <> 0)%Z /\ sessionInvariant (halfPainted false) /\
  currentBase
    (undoEffect 2 false (manualApplyEffect 1 false (halfPainted false))) =
  currentBase (halfPainted false).
Proof.
  assert (H1 : (1 <> 0)%Z) by discriminate.
  assert (H2 : (2 <> 0)%Z) by discriminate.
  split; [exact H1|]. split; [exact H2|].
  split; [exact (halfPainted_invariant false)|].
  exact (proj1 (commit_then_undo 1 2 false false (halfPainted false) H1 H2
                  (halfPainted_invariant false))).
Defined.

Lemma undoEffect_spec_witness :
  (1 <> 0)%Z /\ sessionInvariant (manualApplyEffect 1 false (halfPainted false)) /\
  maskLayerRef (undoEffect 1 false (manualApplyEffect 1 false (halfPainted false))) =
  maskLayerRef (manualApplyEffect 1 false (halfPainted false)).
Proof.
  assert (Ht : (1 <> 0)%Z) by discriminate.
  assert (Hinv : sessionInvariant (manualApplyEffect 1 false (halfPainted false)))
    by (apply manualApplyEffect_invariant, halfPainted_invariant).
  split; [exact Ht|]. split; [exact Hinv|].
  exact (proj1 (undoEffect_spec 1 false _ Ht Hinv)).
Defined.

Lemma renderCanvas_pure_idempotent_witness :
  (forall display, displayCanvasRef (halfPainted false) = Some display ->
     globalAlpha display = alphaOne) /\
  renderCanvas false (renderCanvas false (halfPainted false)) =
  renderCanvas false (halfPainted false).
Proof.
  assert (Hga : forall display,
            displayCanvasRef (halfPainted false) = Some display ->
            globalAlpha display = alphaOne).
  { intros display Hd. vm_compute in Hd. injection Hd as <-. reflexivity. }
  split; [exact Hga|].
  exact (proj1 (proj2 (proj2 (proj2
           (renderCanvas_pure_idempotent false (halfPainted false) Hga))))).
Defined.

Lemma ai_failure_keeps_session_witness :
  App.originalImage dotApp
    = Some (App.mkImage "data:image/png;base64,ZG90" greyDot) /\
  runEffects keyOutCorner decodePair nearestSample (Some dotProps) dotProps
    (halfPainted false) = halfPainted false.
Proof.
  split; [reflexivity|].
  destruct (ai_failure_keeps_session keyOutCorner decodePair nearestSample
              serviceDown dotApp
              (App.mkImage "data:image/png;base64,ZG90" greyDot)
              0 0 false (halfPainted false) eq_refl)
    as (_ & _ & Hkeep).
  destruct Hkeep as (_ & _ & p & Hp & _ & Hrun).
  - intros url H. discriminate H.
  - injection Hp as <-. exact Hrun.
Defined.

(** C10, as stated, fails on the code: a trigger of -1 is not strictly
    positive, yet the manual-apply effect runs and pushes a second history
    entry, and the auto-remove effect runs and erases the one-pixel
    image. *)
Lemma effects_trigger_counterexample :
  ~ (0 < -1)%Z /\
  length (historyRef freshDot) = 1 /\
  length (historyRef (manualApplyEffect (-1) false freshDot)) = 2 /\
  alpha (getPixel (currentBase freshDot) 0 0) = 255%Z /\
  alpha
    (getPixel
       (currentBase (autoRemoveEffect keyOutCorner (-1) greyDot 15 0 false freshDot))
       0 0) = 0%Z.
Proof. split; [lia|]. repeat split. Qed.

Lemma effects_guard_on_zero_trigger_witness :
  sessionInvariant (halfPainted false) /\
  manualApplyEffect 0 false (halfPainted false) = halfPainted false /\
  length
    (historyRef
       (autoRemoveEffect keyOutCorner (-1) greyDot 15 0 false (halfPainted false)))
    = 1.
Proof.
  split; [exact (halfPainted_invariant false)|]. split.
  - exact (proj2 (proj2
             (proj1
                (effects_guard_on_zero_trigger keyOutCorner 0 greyDot 15 0 false
                   (halfPainted false) (halfPainted_invariant false)) eq_refl))).
  - refine (proj2 (proj1
              (proj2
                 (effects_guard_on_zero_trigger keyOutCorner (-1) greyDot 15 0
                    false (halfPainted false) (halfPainted_invariant false)) _))).
    discriminate.
Defined.

Lemma initEffect_loads_witness :
  displayCanvasRef (mountedRefs (createCanvas 1 1)) <> None /\
  0 < width greyDot /\ 0 < height greyDot /\
  historyRef freshDot = [currentBase freshDot].
Proof.
  assert (Hd : displayCanvasRef (mountedRefs (createCanvas 1 1)) <> None)
    by discriminate.
  assert (Hw : 0 < width greyDot) by (cbn; lia).
  assert (Hh : 0 < height greyDot) by (cbn; lia).
  split; [exact Hd|]. split; [exact Hw|]. split; [exact Hh|].
  exact (proj1 (proj2 (proj2 (proj2 (proj2 (proj2 (proj2
           (initEffect_loads greyDot false (mountedRefs (createCanvas 1 1))
              Hd Hw Hh)))))))).
Defined.

Lemma drawOnMask_paints_witness :
  sessionInvariant freshDot /\
  historyRef (drawOnMask (fun _ _ => 128%Z) false freshDot) = historyRef freshDot.
Proof.
  split; [exact freshDot_invariant|].
  exact (proj1 (proj2
           (drawOnMask_paints (fun _ _ => 128%Z) false freshDot freshDot_invariant))).
Defined.

Lemma stroke_then_commit_witness :
  (1 <> 0)%Z /\ sessionInvariant freshDot /\ isEmpty (currentMask freshDot) /\
  isEmpty
    (currentMask
       (manualApplyEffect 1 false (drawOnMask (fun _ _ => 255%Z) false freshDot))).
Proof.
  assert (Ht : (1 <> 0)%Z) by discriminate.
  assert (He : isEmpty (currentMask freshDot)) by (apply empty_dot; reflexivity).
  split; [exact Ht|]. split; [exact freshDot_invariant|]. split; [exact He|].
  exact (proj1
           (stroke_then_commit (fun _ _ => 255%Z) 1 false freshDot Ht
              freshDot_invariant He)).
Defined.

Lemma preview_shows_commit_witness :
  (1 <> 0)%Z /\ sessionInvariant (halfPainted false) /\
  alpha (getPixel (currentDisplay (renderCanvas true (halfPainted false))) 0 0) =
  alpha (getPixel (currentBase (manualApplyEffect 1 false (halfPainted false))) 0 0).
Proof.
  assert (Ht : (1 <> 0)%Z) by discriminate.
  split; [exact Ht|]. split; [exact (halfPainted_invariant false)|].
  exact (proj1
           (preview_shows_commit 1 false (halfPainted false) Ht
              (halfPainted_invariant false) 0 0)).
Defined.

Lemma pointer_paints_only_while_down_witness :
  (MouseLeave = MouseUp \/ MouseLeave = MouseLeave) /\
  forallb (fun ev => negb (isMouseDown ev))
    [MouseEnter; MouseMove (fun _ _ => 255%Z); MouseUp] = true /\
  snd (pointerRun false
         ([MouseDown (fun _ _ => 128%Z)] ++ MouseLeave
            :: [MouseEnter; MouseMove (fun _ _ => 255%Z); MouseUp])
         (mkPointer false true, freshDot)) =
  snd (pointerRun false [MouseDown (fun _ _ => 128%Z)]
         (mkPointer false true, freshDot)).
Proof.
  assert (Hstop : MouseLeave = MouseUp \/ MouseLeave = MouseLeave) by now right.
  split; [exact Hstop|]. split; [reflexivity|].
  exact (proj1
           (pointer_paints_only_while_down false [MouseDown (fun _ _ => 128%Z)]
              [MouseEnter; MouseMove (fun _ _ => 255%Z); MouseUp] MouseLeave
              (mkPointer false true, freshDot) Hstop eq_refl)).
Defined.

Lemma undoRun_walks_back_witness :
  Forall (fun t => t <> 0%Z) [1%Z; 2%Z; 3%Z] /\
  sessionInvariant (commits 2 (fun _ _ _ => 128%Z) false freshDot) /\
  historyRef (undoRun false [1%Z; 2%Z; 3%Z]
                (commits 2 (fun _ _ _ => 128%Z) false freshDot)) =
  firstn 1 (historyRef (commits 2 (fun _ _ _ => 128%Z) false freshDot)).
Proof.
  assert (Hts : Forall (fun t => t <> 0%Z) [1%Z; 2%Z; 3%Z])
    by (repeat constructor; discriminate).
  assert (Hinv : sessionInvariant (commits 2 (fun _ _ _ => 128%Z) false freshDot))
    by (apply commits_invariant, freshDot_invariant).
  split; [exact Hts|]. split; [exact Hinv|].
  exact (proj1 (undoRun_walks_back false [1%Z; 2%Z; 3%Z] _ Hts Hinv)).
Defined.

Lemma undo_after_replacement_witness :
  sessionInvariant (halfPainted false) /\
  undoEffect 1 false
    (autoRemoveEffect keyOutCorner 1 greyDot 15 0 false (halfPainted false)) =
  autoRemoveEffect keyOutCorner 1 greyDot 15 0 false (halfPainted false).
Proof.
  split; [exact (halfPainted_invariant false)|].
  refine (proj1 (proj2
            (undo_after_replacement keyOutCorner decodePair nearestSample 1 false
               false (halfPainted false) (halfPainted_invariant false)))
            1%Z greyDot 15%Z 0%Z _).
  discriminate.
Defined.

Lemma mount_runs_pending_effects_witness :
  truthy (processedImageOverride dotProps) = false /\
  runEffects keyOutCorner decodePair nearestSample None dotProps
    (mountedRefs (createCanvas 1 1)) =
  initEffect greyDot false (mountedRefs (createCanvas 1 1)).
Proof.
  split; [reflexivity|].
  exact (proj1 (proj2
           (mount_runs_pending_effects keyOutCorner decodePair nearestSample
              (createCanvas 1 1) dotProps eq_refl)) eq_refl eq_refl).
Defined.

Lemma rerender_one_prop_witness :
  true <> manualMaskPreview dotProps /\
  runEffects keyOutCorner decodePair nearestSample (Some dotProps)
    (withPreview true dotProps) (halfPainted false) =
  renderCanvas true (halfPainted false).
Proof.
  assert (Hb : true <> manualMaskPreview dotProps) by discriminate.
  split; [exact Hb|].
  exact (proj1 (proj2
           (rerender_one_prop keyOutCorner decodePair nearestSample dotProps
              (halfPainted false))) true Hb).
Defined.

Lemma tolerance_change_resets_edits_witness :
  (40 <> tolerance (withAutoRemovePressed dotProps))%Z /\
  sessionInvariant (halfPainted false) /\
  length
    (historyRef
       (runEffects keyOutCorner decodePair nearestSample
          (Some (withAutoRemovePressed dotProps))
          (withTolerance 40 (withAutoRemovePressed dotProps))
          (halfPainted false))) = 1.
Proof.
  assert (Htol : (40 <> tolerance (withAutoRemovePressed dotProps))%Z)
    by discriminate.
  split; [exact Htol|]. split; [exact (halfPainted_invariant false)|].
  refine (proj2 (proj2
            (tolerance_change_resets_edits keyOutCorner decodePair nearestSample
               (withAutoRemovePressed dotProps) 40 (halfPainted false) Htol
               (halfPainted_invariant false)) _)).
  discriminate.
Defined.

Lemma handleAiRemove_applies_witness :
  App.originalImage dotApp
    = Some (App.mkImage "data:image/png;base64,ZG90" greyDot) /\
  GeminiService.removeBackgroundWithAi serviceUp "data:image/png;base64,ZG90"
    = Resolved (Some pairUrl) /\
  App.processedImageOverride (App.handleAiRemove serviceUp dotApp) = Some pairUrl.
Proof.
  split; [reflexivity|]. split; [reflexivity|].
  exact (proj1
           (handleAiRemove_applies keyOutCorner decodePair nearestSample serviceUp
              dotApp (App.mkImage "data:image/png;base64,ZG90" greyDot) pairUrl
              0 0 false freshDot eq_refl eq_refl)).
Defined.

Lemma handleAutoRemove_reruns_witness :
  App.originalImage dotApp
    = Some (App.mkImage "data:image/png;base64,ZG90" greyDot) /\
  (0 <= App.triggerAutoRemove dotApp)%Z /\
  (0 < App.triggerAutoRemove (Shell.handleAutoRemove dotApp))%Z.
Proof.
  assert (Hc : (0 <= App.triggerAutoRemove dotApp)%Z) by (cbn; lia).
  split; [reflexivity|]. split; [exact Hc|].
  exact (proj1
           (handleAutoRemove_reruns keyOutCorner decodePair nearestSample dotApp
              (App.mkImage "data:image/png;base64,ZG90" greyDot) 0 0 false
              freshDot eq_refl Hc)).
Defined.

Lemma upload_names_file_witness :
  Shell.picture holidayPhoto
    = Some (App.mkImage "data:image/jpeg;base64,ZG90" greyDot) /\
  Shell.fileName (Shell.handleImageUpload (Some holidayPhoto) shellStart) =
  Shell.beforeDot "holiday.2024.jpg".
Proof.
  split; [reflexivity|].
  exact (proj1
           (upload_names_file holidayPhoto
              (App.mkImage "data:image/jpeg;base64,ZG90" greyDot) shellStart
              eq_refl)).
Defined.


Lemma suggestion_blocks_analysis_witness :
  truthy (Shell.aiSuggestedName shellNamed) = true /\
  forallb Shell.keepsSuggestion
    [Shell.NewImage; Shell.Upload (Some holidayPhoto);
     Shell.Updated "data:image/png;base64,ZG90"; Shell.Download] = true /\
  Shell.analysisRequests
    (Shell.run
       [Shell.NewImage; Shell.Upload (Some holidayPhoto);
        Shell.Updated "data:image/png;base64,ZG90"; Shell.Download]
       shellNamed) =
  Shell.analysisRequests shellNamed.
Proof.
  split; [reflexivity|]. split; [reflexivity|].
  exact (proj1
           (suggestion_blocks_analysis
              [Shell.NewImage; Shell.Upload (Some holidayPhoto);
               Shell.Updated "data:image/png;base64,ZG90"; Shell.Download]
              shellNamed eq_refl eq_refl)).
Defined.

Lemma drop_restarts_analysis_witness :
  String.prefix "image/" (Shell.type holidayPhoto) = true /\
  Shell.picture holidayPhoto
    = Some (App.mkImage "data:image/jpeg;base64,ZG90" greyDot) /\
  Shell.aiSuggestedName (Shell.handleDrop (Some holidayPhoto) shellNamed) = None.
Proof.
  split; [reflexivity|]. split; [reflexivity|].
  exact (proj1
           (proj2 (proj2
              (drop_restarts_analysis holidayPhoto shellNamed
                 "data:image/png;base64,ZG90"))
              (App.mkImage "data:image/jpeg;base64,ZG90" greyDot) eq_refl eq_refl)).
Defined.

Lemma cleanBase64_strips_witness :
  GeminiService.dropPrefix "data:image/" "https://example.org/dot.png" = None /\
  GeminiService.cleanBase64 "https://example.org/dot.png" =
  "https://example.org/dot.png"%string.
Proof.
  split; [reflexivity|].
  exact (proj2 (proj2 (proj2 (proj2 (proj2 (cleanBase64_strips "ZG90")))))
           "https://example.org/dot.png"%string eq_refl).
Defined.

Lemma firstInlineImage_first_payload_witness :
  forallb (fun p => negb (GeminiService.hasPayload p))
    [GeminiService.mkPart None (Some "Here it is."%string)] = true /\
  truthy (Some "cGFpcg=="%string) = true /\
  GeminiService.firstInlineImage
    ([GeminiService.mkPart None (Some "Here it is."%string)]
       ++ GeminiService.mkPart
            (Some (GeminiService.mkBlob None (Some "cGFpcg=="%string))) None
       :: []) = Some pairUrl.
Proof.
  split; [reflexivity|]. split; [reflexivity|].
  exact (proj1
           (firstInlineImage_first_payload
              [GeminiService.mkPart None (Some "Here it is."%string)] []
              (GeminiService.mkPart
                 (Some (GeminiService.mkBlob None (Some "cGFpcg=="%string))) None)
              (GeminiService.mkBlob None (Some "cGFpcg=="%string)) "cGFpcg=="
              eq_refl eq_refl eq_refl eq_refl)).
Defined.

Lemma handleAiRemove_feedback_witness :
  App.originalImage dotApp
    = Some (App.mkImage "data:image/png;base64,ZG90" greyDot) /\
  App.isProcessing (App.handleAiRemove serviceDown dotApp) = false.
Proof.
  split; [reflexivity|].
  exact (proj1
           (proj2 (handleAiRemove_feedback serviceDown dotApp)
              (App.mkImage "data:image/png;base64,ZG90" greyDot) eq_refl)).
Defined.

Lemma single_canvas_ai_resizes_witness :
  truthy (Some pairUrl) = true /\
  decodePair pairUrl = Some greyWhitePair /\
  width
    (SingleCanvas.pixels
       (SingleCanvas.aiOverrideEffect decodePair (Some pairUrl)
          (Some (createCanvas 1 1)))) = 2.
Proof.
  split; [reflexivity|]. split; [reflexivity|].
  exact (proj1
           (proj2 (single_canvas_ai_resizes decodePair pairUrl (createCanvas 1 1)
                     eq_refl) greyWhitePair eq_refl)).
Defined.

Lemma single_canvas_auto_after_ai_witness :
  triggerAutoRemove dotProps = 0%Z /\
  processedImageOverride dotProps = None /\
  truthy (Some pairUrl) = true /\
  decodePair pairUrl = Some greyWhitePair /\
  SingleCanvas.runEffects keyOutCorner decodePair None dotProps
    (Some (createCanvas 2 2)) =
  Some (drawImage greyDot (createCanvas 1 1)).
Proof.
  split; [reflexivity|]. split; [reflexivity|].
  split; [reflexivity|]. split; [reflexivity|].
  exact (proj1
           (single_canvas_auto_after_ai keyOutCorner decodePair dotProps pairUrl
              greyWhitePair (createCanvas 2 2) eq_refl eq_refl eq_refl eq_refl)).
Defined.
